(** * fms.distributed.strategy: placement strategies, shallowly embedded

    A model of [fms/distributed/strategy.py]: the strategy interface with its
    ignore-list gate, the no-op strategy, the device mover, the uniform
    layer-to-device mapper, the weight pattern classifier
    ([generate_layer_plan]) and the tensor-parallel strategy.

    Python integers are [Z] (unbounded; [//] is [Z.div], which floors like
    Python's), Python lists are [list], insertion-ordered dicts are
    association lists with unique keys, exceptions are values of [exn], and
    code that prints or calls into torch runs in a small monad over a trace
    of observable events. *)

From Stdlib Require Import ZArith Lia Ascii String.
From stdpp Require Import base numbers list strings option pretty.

Set Warnings "-register-all".

Local Open Scope string_scope.
Local Open Scope Z_scope.
Local Open Scope list_scope.

(** ** Exceptions and the pure result monad *)

Inductive exn : Type :=
| AssertionError (msg : string)
| ValueError (msg : string)
| AttributeError (name : string)
| KeyError (key : string)
| IndexError
| ZeroDivisionError.

Inductive result (A : Type) : Type :=
| Ok (a : A)
| Raise (e : exn).
Arguments Ok {A} a.
Arguments Raise {A} e.

Definition rbind {A B} (r : result A) (k : A → result B) : result B :=
  match r with
  | Ok a => k a
  | Raise e => Raise e
  end.

Declare Scope result_scope.
Delimit Scope result_scope with res.
Notation "'let?' x := r 'in' k" := (rbind r (fun x => k))
  (at level 10, x pattern, r at level 100, k at level 200) : result_scope.

(** ** Python primitives on integers and lists *)

(** [a // b] *)
Definition floordiv (a b : Z) : result Z :=
  if decide (b = 0) then Raise ZeroDivisionError else Ok (a / b).

(** [[x] * n]: a non-positive [n] gives the empty list. *)
Definition list_repeat {A} (x : A) (n : Z) : list A := replicate (Z.to_nat n) x.

(** Resolution of a subscript against a list of length [n]: negative
    subscripts count from the end, anything else is out of range. *)
Definition norm_index (n : nat) (i : Z) : option nat :=
  if decide (0 ≤ i < Z.of_nat n) then Some (Z.to_nat i)
  else if decide (- Z.of_nat n ≤ i < 0) then Some (Z.to_nat (Z.of_nat n + i))
  else None.

(** [l[i]] *)
Definition getitem {A} (l : list A) (i : Z) : result A :=
  match norm_index (length l) i with
  | Some k => match l !! k with Some x => Ok x | None => Raise IndexError end
  | None => Raise IndexError
  end.

(** [l[i] = x] *)
Definition setitem {A} (l : list A) (i : Z) (x : A) : result (list A) :=
  match norm_index (length l) i with
  | Some k => Ok (<[k := x]> l)
  | None => Raise IndexError
  end.

(** [range(n)] *)
Definition range (n : Z) : list Z := Z.of_nat <$> seq 0 (Z.to_nat n).

(** A [for] loop whose body may raise: the state is threaded through the
    iterations and the first exception ends the loop. *)
Fixpoint for_each {A S} (xs : list A) (body : A → S → result S) (s : S)
  : result S :=
  match xs with
  | [] => Ok s
  | x :: xs' =>
      match body x s with
      | Ok s' => for_each xs' body s'
      | Raise e => Raise e
      end
  end.

(** ** UniformModelParallelStrategy.__init__ *)

Module Uniform.

(** The locals the two nested loops update. *)
Record locals : Type := Locals {
  layer_to_device : list Z;
  layer_id : Z;
  remainder : Z
}.

(** [self.layer_to_device[layer_id] = devices[dev_idx]; layer_id += 1] *)
Definition assign (devices : list Z) (dev_idx : Z) (s : locals)
  : result locals :=
  (let? d := getitem devices dev_idx in
   let? t := setitem (layer_to_device s) (layer_id s) d in
   Ok (Locals t (layer_id s + 1) (remainder s)))%res.

(** The body of [for dev_idx in range(len(devices))]. *)
Definition dev_body (devices : list Z) (layers_per_dev : Z)
    (dev_idx : Z) (s : locals) : result locals :=
  (let? s1 := for_each (range layers_per_dev)
                (fun _ s => assign devices dev_idx s) s in
   if decide (remainder s1 > 0) then
     let? s2 := assign devices dev_idx s1 in
     Ok (Locals (layer_to_device s2) (layer_id s2) (remainder s2 - 1))
   else Ok s1)%res.

(** The constructor, returning [self.layer_to_device]. *)
Definition __init__ (devices : list Z) (num_layers : Z)
  : result (list Z) :=
  (let num_dev := Z.of_nat (length devices) in
   let? layers_per_dev := floordiv num_layers num_dev in
   let remainder := num_layers - layers_per_dev * num_dev in
   let s0 := Locals (list_repeat 0 num_layers) 0 remainder in
   let? s := for_each (range (Z.of_nat (length devices)))
               (dev_body devices layers_per_dev) s0 in
   Ok (layer_to_device s))%res.

(** Number of layers the device at position [i] is specified to get. *)
Definition share (num_layers num_dev : Z) (i : nat) : nat :=
  Z.to_nat (num_layers / num_dev
            + (if decide (Z.of_nat i < num_layers mod num_dev) then 1 else 0)).

(** The table as contiguous blocks in device-list order. *)
Definition blocks (devices : list Z) (num_layers : Z) : list Z :=
  concat (imap (fun i d =>
                  replicate (share num_layers (Z.of_nat (length devices)) i) d)
               devices).

(** How many layers the table sends to device [d]. *)
Definition layers_on (d : Z) (table : list Z) : nat :=
  length (filter (fun x => x = d) table).

(** The loop state when [pre] has been written and [m] slots are left. *)
Definition at_state (pre : list Z) (m : nat) (r : Z) : locals :=
  Locals (pre ++ replicate m 0) (Z.of_nat (length pre)) r.

(** Layers given to the device at offset [j] when [r] extra layers are
    still to be handed out. *)
Definition cnt (base r : Z) (j : nat) : nat :=
  (Z.to_nat base + (if decide (Z.of_nat j < r)%Z then 1 else 0))%nat.

End Uniform.

(** ** Insertion-ordered dictionaries with string keys

    A Python [dict]: assigning to a key that is present replaces its value in
    place, assigning to a new key appends it. *)

Module Dict.

Definition t (V : Type) : Type := list (string * V).

Definition empty {V} : t V := [].

(** [d.get(k)], [None] when the key is absent *)
Fixpoint get {V} (k : string) (d : t V) : option V :=
  match d with
  | [] => None
  | (k', v) :: d' => if decide (k = k') then Some v else get k d'
  end.

(** [d[k] = v] *)
Fixpoint set {V} (k : string) (v : V) (d : t V) : t V :=
  match d with
  | [] => [(k, v)]
  | (k', v') :: d' =>
      if decide (k = k') then (k, v) :: d' else (k', v') :: set k v d'
  end.

(** [dict(pairs)] *)
Definition of_pairs {V} (pairs : list (string * V)) : t V :=
  foldl (fun d kv => set kv.1 kv.2 d) empty pairs.

(** [k in d] *)
Definition mem {V} (k : string) (d : t V) : bool :=
  bool_decide (is_Some (get k d)).

(** [d[k]] *)
Definition getitem {V} (k : string) (d : t V) : result V :=
  match get k d with
  | Some v => Ok v
  | None => Raise (KeyError k)
  end.

(** The keys, in insertion order *)
Definition keys {V} (d : t V) : list string := fst <$> d.

(** The invariant of a dictionary: no key occurs twice. *)
Definition wf {V} (d : t V) : Prop := NoDup (keys d).

End Dict.

(** ** Star-free regular expressions and [re.fullmatch]

    The patterns of the classifier are built from literal characters
    (escaped dots included), concatenation and alternation only. The matcher
    backtracks with a continuation, as Python's engine does. *)

Module Re.

Inductive regex : Type :=
| Eps
| Chr (c : ascii)
| Cat (r1 r2 : regex)
| Alt (r1 r2 : regex).

Fixpoint lit (s : string) : regex :=
  match s with
  | EmptyString => Eps
  | String c s' => Cat (Chr c) (lit s')
  end.

Fixpoint accept (r : regex) (s : string) (k : string → bool) : bool :=
  match r with
  | Eps => k s
  | Chr c =>
      match s with
      | String c' s' => if decide (c = c') then k s' else false
      | EmptyString => false
      end
  | Cat r1 r2 => accept r1 s (fun rest => accept r2 rest k)
  | Alt r1 r2 => accept r1 s k || accept r2 s k
  end.

(** [re.fullmatch(pattern, name)] as a truth value *)
Definition fullmatch (pattern : regex) (name : string) : bool :=
  accept pattern name (fun rest => bool_decide (rest = "")).

(** The language of a pattern: the strings it matches in full. *)
Fixpoint lang (r : regex) (s : string) : Prop :=
  match r with
  | Eps => s = ""
  | Chr c => s = String c ""
  | Cat r1 r2 => ∃ s1 s2, s = s1 +:+ s2 ∧ lang r1 s1 ∧ lang r2 s2
  | Alt r1 r2 => lang r1 s ∨ lang r2 s
  end.

(** Whether some pattern of a list matches the name in full. *)
Definition any_match (patterns : list regex) (name : string) : bool :=
  existsb (fun pattern => fullmatch pattern name) patterns.

End Re.

(** ** Modules, parallel styles, the event trace *)

Inductive class : Type :=
| nn_LayerNorm
| nn_Dropout
| LayerNormParameterized
| nn_Linear
| UserClass (name : string).

Global Instance class_eq_dec : EqDecision class.
Proof. solve_decision. Defined.

(** [cls.__name__] *)
Definition class_name (c : class) : string :=
  match c with
  | nn_LayerNorm => "LayerNorm"
  | nn_Dropout => "Dropout"
  | LayerNormParameterized => "LayerNormParameterized"
  | nn_Linear => "Linear"
  | UserClass name => name
  end.

(** An [nn.Module] as a tree: its identity ([id(module)]), its class and
    the classes it inherits from, its printed form, its integer-valued
    attributes and its registered sub-modules by name. An instance that is
    registered under several names occurs once per name, each time with the
    same identity. *)
Inductive Module : Type :=
  mkModule {
    oid : nat;
    cls : class;
    bases : list class;
    repr : string;
    attrs : Dict.t Z;
    modules : list (string * Module)
  }.

(** [type(module).__name__] *)
Definition type_name (m : Module) : string := class_name (cls m).

(** [isinstance(module, c)] *)
Definition isinstance (m : Module) (c : class) : bool :=
  bool_decide (c = cls m) || bool_decide (c ∈ bases m).

(** The modules of a list that are not in the memo, each instance once. *)
Fixpoint first_instances (memo : list nat) (ms : list Module) : list Module :=
  match ms with
  | [] => []
  | m :: rest =>
      if decide (oid m ∈ memo) then first_instances memo rest
      else m :: first_instances (oid m :: memo) rest
  end.

(** [module.children()]: the registered sub-modules in registration order,
    an instance registered twice only the first time. *)
Definition children (m : Module) : list Module :=
  first_instances [] (snd <$> modules m).

(** [prefix + ("." if prefix else "") + name] *)
Definition sub_prefix (prefix name : string) : string :=
  prefix +:+ (if decide (prefix = "") then "" else ".") +:+ name.

(** [module.named_modules(memo, prefix)]: nothing for an instance that is
    in the memo; otherwise the instance enters the memo and is yielded under
    the prefix, followed by what each registered sub-module yields, in
    registration order, depth first, names joined with a dot, the memo
    carried along. The result is what was yielded and the memo at the end. *)
Fixpoint named_modules_from (prefix : string) (m : Module) (memo : list nat)
  : list (string * Module) * list nat :=
  if decide (oid m ∈ memo) then ([], memo)
  else
    let '(below, memo') :=
      (fix walk (cs : list (string * Module)) (memo : list nat)
         : list (string * Module) * list nat :=
         match cs with
         | [] => ([], memo)
         | (name, c) :: cs' =>
             let '(first, memo1) :=
               named_modules_from (sub_prefix prefix name) c memo in
             let '(rest, memo2) := walk cs' memo1 in
             (first ++ rest, memo2)
         end) (match m with mkModule _ _ _ _ _ ms => ms end) (oid m :: memo) in
    ((prefix, m) :: below, memo').

(** [module.named_modules()] *)
Definition named_modules (m : Module) : list (string * Module) :=
  (named_modules_from "" m []).1.

(** What the registered sub-modules [cs] of a module yield in turn, the memo
    carried from one to the next. *)
Fixpoint named_modules_below (prefix : string) (cs : list (string * Module))
    (memo : list nat) : list (string * Module) * list nat :=
  match cs with
  | [] => ([], memo)
  | (name, c) :: cs' =>
      let '(first, memo1) :=
        named_modules_from (sub_prefix prefix name) c memo in
      let '(rest, memo2) := named_modules_below prefix cs' memo1 in
      (first ++ rest, memo2)
  end.

(** Every registered name with its module, without the memo: an instance
    registered under several names is listed under each of them. *)
Fixpoint registered_from (prefix : string) (m : Module)
  : list (string * Module) :=
  (prefix, m) ::
  (fix walk (cs : list (string * Module)) : list (string * Module) :=
     match cs with
     | [] => []
     | (name, c) :: cs' =>
         registered_from (sub_prefix prefix name) c ++ walk cs'
     end) (match m with mkModule _ _ _ _ _ ms => ms end).

(** The names [register_module] accepts: not empty and without a dot. *)
Fixpoint has_dot (s : string) : bool :=
  match s with
  | EmptyString => false
  | String c s' => bool_decide (c = "."%char) || has_dot s'
  end.

Definition valid_name (name : string) : Prop :=
  name ≠ "" ∧ has_dot name = false.

(** A module tree as torch builds it: at every node the registered names
    are valid and pairwise different. *)
Fixpoint well_formed (m : Module) : Prop :=
  match m with
  | mkModule _ _ _ _ _ ms =>
      NoDup ms.*1
      ∧ (fix all (cs : list (string * Module)) : Prop :=
           match cs with
           | [] => True
           | (name, c) :: cs' => valid_name name ∧ well_formed c ∧ all cs'
           end) ms
  end.

(** The paths from a module to itself and to each of its descendants. *)
Fixpoint paths (m : Module) : list (list string) :=
  [] ::
  (fix walk (cs : list (string * Module)) : list (list string) :=
     match cs with
     | [] => []
     | (name, c) :: cs' => (cons name <$> paths c) ++ walk cs'
     end) (match m with mkModule _ _ _ _ _ ms => ms end).

(** A path written as a dotted name. *)
Fixpoint dotted (path : list string) : string :=
  match path with
  | [] => ""
  | name :: rest =>
      match rest with
      | [] => name
      | _ :: _ => name +:+ "." +:+ dotted rest
      end
  end.

Inductive placement : Type :=
| Replicate
| Shard (dim : Z).

Inductive ParallelStyle : Type :=
| ColwiseParallel (output_layouts : option placement)
| RowwiseParallel (input_layouts : option placement)
| SequenceParallel.

(** [style.__class__.__name__] *)
Definition style_name (p : ParallelStyle) : string :=
  match p with
  | ColwiseParallel _ => "ColwiseParallel"
  | RowwiseParallel _ => "RowwiseParallel"
  | SequenceParallel => "SequenceParallel"
  end.

Inductive Group : Type :=
| WORLD
| SubGroup (ranks : list Z).

Record DeviceMesh : Type := mkMesh {
  mesh_device_type : string;
  mesh_shape : list Z
}.

(** [mesh.size()]: the number of ranks in the mesh *)
Definition mesh_size (m : DeviceMesh) : Z := foldr Z.mul 1 (mesh_shape m).

(** The calls into torch and the operating system that the module makes. *)
Inductive callee : Type :=
| dist_is_initialized
| dist_GroupMember_WORLD
| os_getenv (name : string)
| cuda_is_available
| dist_get_world_size
| dist_get_rank
| call_init_device_mesh (device_type : string) (shape : list Z)
| call_apply_tp (m : Module) (g : Group)
| call_parallelize_module (m : Module) (mesh : DeviceMesh)
    (plan : Dict.t ParallelStyle).

Inductive event : Type :=
| Print (line : string)
| Called (c : callee).

(** Effectful code: the events it produced, in order, and how it ended. *)
Definition M (A : Type) : Type := list event * result A.

Definition ret {A} (a : A) : M A := ([], Ok a).

Definition raise {A} (e : exn) : M A := ([], Raise e).

Definition bind {A B} (m : M A) (k : A → M B) : M B :=
  match m with
  | (tr, Ok a) => let '(tr', r) := k a in (tr ++ tr', r)
  | (tr, Raise e) => (tr, Raise e)
  end.

Definition emit (e : event) : M unit := ([e], Ok tt).

Definition print (line : string) : M unit := emit (Print line).

Definition lift {A} (r : result A) : M A := ([], r).

Declare Scope M_scope.
Delimit Scope M_scope with M.
Notation "'let!' x := m 'in' k" := (bind m (fun x => k))
  (at level 10, x pattern, m at level 100, k at level 200) : M_scope.
Notation "'do!' m 'in' k" := (bind m (fun _ => k))
  (at level 10, m at level 100, k at level 200) : M_scope.

(** A [for] loop in [M], threading a state. *)
Fixpoint forM {A S} (xs : list A) (body : A → S → M S) (s : S) : M S :=
  match xs with
  | [] => ret s
  | x :: xs' => (let! s' := body x s in forM xs' body s')%M
  end.

Definition nl : string := String (ascii_of_nat 10) "".

(** ** The process: environment variables and the state of torch.distributed *)

Record Process : Type := mkProcess {
  environ : Dict.t string;
  initialized : bool;
  cuda : bool;
  world_size : Z;
  rank : Z
}.

(** [s.split(sep)] for a one-character separator *)
Fixpoint split (sep : ascii) (s : string) : list string :=
  match s with
  | EmptyString => [""]
  | String c s' =>
      if decide (c = sep) then "" :: split sep s'
      else match split sep s' with
           | h :: t => String c h :: t
           | [] => [String c ""]
           end
  end.

Definition lower_ascii (c : ascii) : ascii :=
  let n := nat_of_ascii c in
  if decide (65 ≤ n ≤ 90)%nat then ascii_of_nat (n + 32) else c.

(** [s.lower()] on ASCII text *)
Fixpoint lower (s : string) : string :=
  match s with
  | EmptyString => EmptyString
  | String c s' => String (lower_ascii c) (lower s')
  end.

(** The module-level ignore list, read from the environment at import. *)
Definition _distributed_strategy_ignore_modules (P : Process) : list string :=
  match Dict.get "DISTRIBUTED_STRATEGY_IGNORE_MODULES" (environ P) with
  | Some v => split "," v
  | None => []
  end.

(** [os.getenv(name, default)] *)
Definition getenv (P : Process) (name default : string) : M string :=
  (do! emit (Called (os_getenv name)) in
   ret (match Dict.get name (environ P) with Some v => v | None => default end))%M.

(** The collaborators that are not part of this module: the device-mesh
    constructor, the generic tensor-parallel wrapper and the
    mesh-parallelization primitive. Their behaviour is left open; each may
    print, call further and raise. *)
Record Torch : Type := mkTorch {
  init_device_mesh : string → list Z → M DeviceMesh;
  apply_tp : Module → Group → M Module;
  parallelize_module : Module → DeviceMesh → Dict.t ParallelStyle → M Module
}.

(** ** DistributedStrategy *)

(** A strategy: the [from_meta] attribute and the two abstract methods. A
    method's result is [None] when the Python method returns [None]. *)
Record DistributedStrategy : Type := mkStrategy {
  from_meta : bool;
  _distribute_module : Module → bool → option string → M (option Module);
  _distribute_layer : Module → Z → option string → M (option Module)
}.

Definition __should_distribute (P : Process) (module_name : string) : bool :=
  bool_decide (module_name ∉ _distributed_strategy_ignore_modules P).

Definition distribute_module (P : Process) (self : DistributedStrategy)
    (module : Module) (final_layers : bool) (model : option string)
  : M (option Module) :=
  let module_name := type_name module in
  if __should_distribute P module_name then
    _distribute_module self module final_layers model
  else
    (do! print ("ignoring module=" +:+ module_name
                +:+ " when distributing module") in
     ret (Some module))%M.

Definition distribute_layer (P : Process) (self : DistributedStrategy)
    (block : Module) (layer : Z) (model : option string)
  : M (option Module) :=
  let block_name := type_name block in
  if __should_distribute P block_name then
    _distribute_layer self block layer model
  else
    (do! print ("ignoring block=" +:+ block_name
                +:+ " when distributing layer") in
     ret (Some block))%M.

(** ** NotDistributed *)

Definition NotDistributed (from_meta : bool) : DistributedStrategy :=
  {| from_meta := from_meta;
     _distribute_module := fun module _ _ => ret (Some module);
     _distribute_layer := fun block _ _ => ret (Some block) |}.

Definition NoOpStrategy : DistributedStrategy := NotDistributed false.

(** ** DeviceMover.forward *)

Module DeviceMover.

(** What can be passed to a module: a tensor living on a device, a
    container of further values (not itself a tensor), or anything else. *)
Inductive value : Type :=
| Tensor (device : Z) (data : list Z)
| Tuple (items : list value)
| Other (payload : string).

(** [isinstance(v, torch.Tensor)] *)
Definition is_tensor (v : value) : bool :=
  match v with Tensor _ _ => true | _ => false end.

(** [t.to(device)] on a tensor: the same data on the given device *)
Definition to (device : Z) (v : value) : value :=
  match v with
  | Tensor _ data => Tensor device data
  | _ => v
  end.

(** The wrapper: the wrapped module, as the function its invocation
    computes, and the target device. *)
Record t (R : Type) : Type := mk {
  module : list value → Dict.t value → M R;
  device : Z
}.
Arguments module {R} _.
Arguments device {R} _.

Definition forward {R} (self : t R) (args : list value)
    (kwargs : Dict.t value) : M R :=
  (let device := device self in
   let args :=
     (fun arg => if is_tensor arg then to device arg else arg) <$> args in
   let! kwargs :=
     lift (for_each (Dict.keys kwargs)
             (fun k acc =>
                (let? v := Dict.getitem k kwargs in
                 Ok (Dict.set k (if is_tensor v then to device v else v)
                       acc))%res)
             Dict.empty) in
   module self args kwargs)%M.

End DeviceMover.

(** ** generate_layer_plan *)

Definition colwise_patterns : list Re.regex :=
  [ Re.lit "attn.in_proj.qkv_fused";
    Re.Cat (Re.lit "attn.in_proj.")
           (Re.Alt (Re.lit "query") (Re.Alt (Re.lit "key") (Re.lit "value")));
    Re.lit "ff_sub_layer.wg1_fused";
    Re.lit "ff_sub_layer.w1";
    Re.lit "ff_sub_layer.wg" ].

Definition rowwise_patterns : list Re.regex :=
  [ Re.lit "attn.dense";
    Re.lit "ff_sub_layer.w2" ].

(** [for pattern in patterns: if re.fullmatch(pattern, name):
       tp_plan[name] = style; break] *)
Fixpoint scan (patterns : list Re.regex) (name : string)
    (style : ParallelStyle) (tp_plan : Dict.t ParallelStyle)
  : Dict.t ParallelStyle :=
  match patterns with
  | [] => tp_plan
  | pattern :: rest =>
      if Re.fullmatch pattern name then Dict.set name style tp_plan
      else scan rest name style tp_plan
  end.

(** The listing of a sub-module's children that opens each iteration. *)
Definition print_children (name : string) (module : Module) : M unit :=
  (let children := children module in
   match children with
   | _ :: _ =>
       do! print ("[TP] Children of " +:+ name +:+ ":") in
       do! forM children
             (fun child _ => print ("*********" +:+ repr child)) tt in
       print "[TP] Printed all children:"
   | [] => print ("[TP] " +:+ name +:+ " has no children.")
   end)%M.

(** One iteration of [for name, module in block.named_modules()], over the
    two pattern lists. *)
Definition classify (colwise rowwise : list Re.regex)
    (use_sequence_parallelism : bool) (nm : string * Module)
    (tp_plan : Dict.t ParallelStyle) : M (Dict.t ParallelStyle) :=
  (let '(name, module) := nm in
   do! print (nl +:+ "[TP] Layer Name: " +:+ name) in
   do! print ("[TP] Module: " +:+ repr module) in
   do! print_children name module in
   if use_sequence_parallelism
      && (isinstance module nn_LayerNorm || isinstance module nn_Dropout
          || isinstance module LayerNormParameterized)
   then ret (Dict.set name SequenceParallel tp_plan)
   else if isinstance module nn_Linear then
     let tp_plan := scan colwise name (ColwiseParallel None) tp_plan in
     let tp_plan := scan rowwise name (RowwiseParallel None) tp_plan in
     ret tp_plan
   else
     do! print ("[TP] Unmatched Layer: " +:+ name) in
     ret tp_plan)%M.

(** What one iteration does to the plan, without the printing. *)
Definition plan_step (colwise rowwise : list Re.regex)
    (use_sequence_parallelism : bool) (tp_plan : Dict.t ParallelStyle)
    (nm : string * Module) : Dict.t ParallelStyle :=
  if use_sequence_parallelism
     && (isinstance nm.2 nn_LayerNorm || isinstance nm.2 nn_Dropout
         || isinstance nm.2 LayerNormParameterized)
  then Dict.set nm.1 SequenceParallel tp_plan
  else if isinstance nm.2 nn_Linear then
    scan rowwise nm.1 (RowwiseParallel None)
      (scan colwise nm.1 (ColwiseParallel None) tp_plan)
  else tp_plan.

(** [isinstance(module, (nn.LayerNorm, nn.Dropout, LayerNormParameterized))] *)
Definition is_norm_or_dropout (module : Module) : bool :=
  isinstance module nn_LayerNorm || isinstance module nn_Dropout
  || isinstance module LayerNormParameterized.

(** The entry of a name after the column-wise scan and then the row-wise
    scan, given its entry before. *)
Definition after_scans (colwise rowwise : list Re.regex) (name : string)
    (before : option ParallelStyle) : option ParallelStyle :=
  if Re.any_match rowwise name then Some (RowwiseParallel None)
  else if Re.any_match colwise name then Some (ColwiseParallel None)
  else before.

(** The classifier over arbitrary pattern lists. *)
Definition generate_layer_plan_with (colwise rowwise : list Re.regex)
    (block : Module) (use_sequence_parallelism : bool)
  : M (Dict.t ParallelStyle) :=
  (let! tp_plan := forM (named_modules block)
                     (classify colwise rowwise use_sequence_parallelism)
                     Dict.empty in
   do! print "" in
   ret tp_plan)%M.

Definition generate_layer_plan (block : Module)
    (use_sequence_parallelism : bool) : M (Dict.t ParallelStyle) :=
  generate_layer_plan_with colwise_patterns rowwise_patterns block
    use_sequence_parallelism.

(** ** TensorParallelStrategy *)

Module TensorParallel.

Record t : Type := mk {
  tp_from_meta : bool;
  group : Group;
  use_sequence_parallelism : bool;
  device_mesh : DeviceMesh
}.

Definition __init__ (T : Torch) (P : Process) (group : option Group)
    (from_meta : bool) : M t :=
  (do! emit (Called dist_is_initialized) in
   do! (if initialized P then ret tt
        else raise (AssertionError "must initialize a process group")) in
   let! group :=
     match group with
     | Some g => ret g
     | None => do! emit (Called dist_GroupMember_WORLD) in ret WORLD
     end in
   let! flag := getenv P "USE_SEQUENCE_PARALLELISM" "False" in
   let use_sequence_parallelism := bool_decide (lower flag = "true") in
   do! (if use_sequence_parallelism
        then print "Using TP strategy with sequence parallelism"
        else print "Using TP strategy without sequence parallelism") in
   do! emit (Called cuda_is_available) in
   let device_type := if cuda P then "cuda" else "cpu" in
   do! emit (Called dist_get_world_size) in
   let world := world_size P in
   do! emit (Called (call_init_device_mesh device_type [world])) in
   let! device_mesh := init_device_mesh T device_type [world] in
   ret (mk from_meta group use_sequence_parallelism device_mesh))%M.

(** [not model] *)
Definition falsy (model : option string) : bool :=
  match model with
  | None => true
  | Some s => bool_decide (s = "")
  end.

(** [model == tag] *)
Definition is_tag (model : option string) (tag : string) : bool :=
  bool_decide (model = Some tag).

(** [f"{model}"] *)
Definition show (model : option string) : string :=
  match model with
  | None => "None"
  | Some s => s
  end.

Definition wrap (T : Torch) (m : Module) (g : Group) : M (option Module) :=
  (do! emit (Called (call_apply_tp m g)) in
   let! r := apply_tp T m g in
   ret (Some r))%M.

Definition parallelize (T : Torch) (m : Module) (mesh : DeviceMesh)
    (plan : Dict.t ParallelStyle) : M Module :=
  (do! emit (Called (call_parallelize_module m mesh plan)) in
   parallelize_module T m mesh plan)%M.

Definition _distribute_module (T : Torch) (self : t) (module : Module)
    (final_layers : bool) (model : option string) : M (option Module) :=
  (if falsy model then wrap T module (group self)
   else if is_tag model "llama" then
     if final_layers then
       let tp_plan :=
         Dict.set "shared.head" (ColwiseParallel (Some Replicate))
           Dict.empty in
       let! r := parallelize T module (device_mesh self) tp_plan in
       ret (Some r)
     else
       let tp_plan :=
         Dict.set "shared.emb" (RowwiseParallel (Some Replicate))
           Dict.empty in
       let! r := parallelize T module (device_mesh self) tp_plan in
       ret (Some r)
   else if is_tag model "granite" then
     let tp_plan :=
       Dict.set "base_model.embedding" (RowwiseParallel (Some Replicate))
         (Dict.set "head" (ColwiseParallel (Some Replicate)) Dict.empty) in
     let! r := parallelize T module (device_mesh self) tp_plan in
     ret (Some r)
   else ret None)%M.

(** [obj.name] for a registered sub-module *)
Definition getattr_module (obj : Module) (name : string) : result Module :=
  match Dict.get name (modules obj) with
  | Some m => Ok m
  | None => Raise (AttributeError name)
  end.

(** [obj.name] for an integer attribute *)
Definition getattr_int (obj : Module) (name : string) : result Z :=
  match Dict.get name (attrs obj) with
  | Some v => Ok v
  | None => Raise (AttributeError name)
  end.

(** [obj.name = v] for an integer attribute *)
Definition setattr_int (obj : Module) (name : string) (v : Z) : Module :=
  mkModule (oid obj) (cls obj) (bases obj) (repr obj)
    (Dict.set name v (attrs obj))
    (modules obj).

(** The block after its sub-module [name], an object shared with the
    block, has been updated to [m]. *)
Definition with_module (obj : Module) (name : string) (m : Module) : Module :=
  mkModule (oid obj) (cls obj) (bases obj) (repr obj) (attrs obj)
    (Dict.set name m (modules obj)).

(** [attn_layer.nheads //= size; attn_layer.kvheads //= size] on
    [block.attn] *)
Definition adjust_heads (self : t) (block : Module) : result Module :=
  (let? attn_layer := getattr_module block "attn" in
   let? nheads := getattr_int attn_layer "nheads" in
   let? q := floordiv nheads (mesh_size (device_mesh self)) in
   let attn_layer := setattr_int attn_layer "nheads" q in
   let? kvheads := getattr_int attn_layer "kvheads" in
   let? q := floordiv kvheads (mesh_size (device_mesh self)) in
   let attn_layer := setattr_int attn_layer "kvheads" q in
   Ok (with_module block "attn" attn_layer))%res.

Definition rank_tag (P : Process) : M string :=
  (do! emit (Called dist_get_rank) in
   ret ("[Rank " +:+ pretty (rank P) +:+ "] "))%M.

(** The report printed after the plan has been applied. *)
Definition report (P : Process) (block : Module)
    (layer_tp_plan : Dict.t ParallelStyle) : M unit :=
  (let! tag := rank_tag P in
   do! print (nl +:+ tag +:+ "Test Plan:") in
   let module_names := Dict.of_pairs (named_modules block) in
   forM layer_tp_plan
     (fun '(name, strategy) _ =>
        let! tag := rank_tag P in
        if Dict.mem name module_names then
          print (tag +:+ name +:+ ": " +:+ style_name strategy)
        else
          print (tag +:+ name +:+ ": " +:+ style_name strategy
                 +:+ " (NOT FOUND)"))
     tt)%M.

Definition _distribute_layer (T : Torch) (P : Process) (self : t)
    (block : Module) (layer : Z) (model : option string)
  : M (option Module) :=
  (if falsy model then wrap T block (group self)
   else
     let! layer_tp_plan :=
       if is_tag model "llama" || is_tag model "granite" then
         generate_layer_plan block (use_sequence_parallelism self)
       else raise (ValueError ("Unsupported model: " +:+ show model)) in
     let! block := lift (adjust_heads self block) in
     let! block := parallelize T block (device_mesh self) layer_tp_plan in
     do! report P block layer_tp_plan in
     ret (Some block))%M.

End TensorParallel.

(** The tensor-parallel strategy as an instance of the interface. *)
Definition TensorParallelStrategy (T : Torch) (P : Process)
    (self : TensorParallel.t) : DistributedStrategy :=
  {| from_meta := TensorParallel.tp_from_meta self;
     _distribute_module := TensorParallel._distribute_module T self;
     _distribute_layer := TensorParallel._distribute_layer T P self |}.

(** ** UniformModelParallelStrategy: placement

    The methods that place a layer or a module on the device the table
    names. What torch does to the module is left open: [to] and [to_empty]
    stand for [module.to(device)] and [module.to_empty(device=device)], which
    work in place and hand the module back. *)

Module UniformPlacement.

Record Relocation : Type := mkRelocation {
  to : Module → Z → Module;
  to_empty : Module → Z → Module
}.

(** What a placement returns: a module as such, or a [DeviceMover] around a
    module with its target device. *)
Inductive placed : Type :=
| Plain (module : Module)
| Mover (module : Module) (device : Z).

Record t : Type := mk {
  from_meta : bool;
  layer_to_device : list Z
}.

(** [UniformModelParallelStrategy(devices, num_layers, from_meta)] *)
Definition new (devices : list Z) (num_layers : Z) (from_meta : bool)
  : result t :=
  (let? table := Uniform.__init__ devices num_layers in
   Ok (mk from_meta table))%res.

(** [DeviceMover(module, device)]: the wrapper keeps [module.to(device)]. *)
Definition DeviceMover_new (R : Relocation) (module : Module) (device : Z)
  : placed :=
  Mover (to R module device) device.

Definition _distribute_layer (R : Relocation) (self : t) (block : Module)
    (layer : Z) : result placed :=
  (let? device := getitem (layer_to_device self) layer in
   let block := if from_meta self then to_empty R block device else block in
   let wrapped := DeviceMover_new R block device in
   Ok wrapped)%res.

Definition _distribute_module (R : Relocation) (self : t) (module : Module)
    (final_layers : bool) : result placed :=
  (let? device :=
     if final_layers then
       getitem (layer_to_device self)
         (Z.of_nat (length (layer_to_device self)) - 1)
     else getitem (layer_to_device self) 0 in
   if from_meta self then Ok (Plain (to_empty R module device))
   else
     let wrapped := DeviceMover_new R module device in
     Ok wrapped)%res.

(** The position in the device list of the device that gets layer [n]:
    the first [L mod D] blocks have [L / D + 1] layers, the others [L / D]. *)
Definition position (num_layers num_dev n : Z) : Z :=
  let base := num_layers / num_dev in
  let extra := num_layers mod num_dev in
  if decide (n < extra * (base + 1)) then n / (base + 1)
  else extra + (n - extra * (base + 1)) / base.

End UniformPlacement.

(** ** DeviceMover.__init__: objects and their attribute dictionaries

    An object is known by its identity; its [__dict__] is a dictionary that
    lives in the store and that several objects may share. Attribute values
    are integers, strings or references to objects. [module.to(device)]
    moves parameters and buffers, which are below what the store shows, and
    returns the module; the store keeps a log of these moves. *)

Module Objects.

Inductive pyval : Type :=
| VInt (n : Z)
| VStr (s : string)
| VRef (id : nat).

Record store : Type := mkStore {
  dict_of : nat → nat;
  dicts : nat → Dict.t pyval;
  moves : list (nat * Z)
}.

(** [obj.name] for a name that the class of the object defines nothing
    under: the entry of the instance dictionary, an attribute error without
    one. What classes define (methods, properties) is not in the store. *)
Definition getattr (h : store) (obj : nat) (name : string) : result pyval :=
  match Dict.get name (dicts h (dict_of h obj)) with
  | Some v => Ok v
  | None => Raise (AttributeError name)
  end.

(** [d[name] = v] on the dictionary at address [a] *)
Definition dict_set (h : store) (a : nat) (name : string) (v : pyval) : store :=
  mkStore (dict_of h)
    (fun b => if decide (b = a) then Dict.set name v (dicts h a) else dicts h b)
    (moves h).

(** [obj.name = v] *)
Definition setattr (h : store) (obj : nat) (name : string) (v : pyval)
  : store :=
  dict_set h (dict_of h obj) name v.

(** [obj.__dict__ = d] for the dictionary at address [a] *)
Definition set_dict (h : store) (obj : nat) (a : nat) : store :=
  mkStore (fun o => if decide (o = obj) then a else dict_of h o)
    (dicts h) (moves h).

(** [nn.Module.__init__(obj)]: the instance dictionary gets the attributes
    every module starts with. *)
Definition module_init (fresh : Dict.t pyval) (h : store) (obj : nat) : store :=
  mkStore (dict_of h)
    (fun b => if decide (b = dict_of h obj) then fresh else dicts h b)
    (moves h).

(** [module.to(device)] *)
Definition to (h : store) (module : nat) (device : Z) : store * nat :=
  (mkStore (dict_of h) (dicts h) (moves h ++ [(module, device)]), module).

(** [DeviceMover.__init__(self, module, device)] *)
Definition __init__ (fresh : Dict.t pyval) (h : store) (self module : nat)
    (device : Z) : store :=
  let h := module_init fresh h self in
  let h := setattr h self "device" (VInt device) in
  let attr := dict_of h module in
  let '(h, moved) := to h module device in
  let h := dict_set h attr "module" (VRef moved) in
  let h := dict_set h attr "device" (VInt device) in
  set_dict h self attr.

End Objects.

(** ** Ways to say what the code computes *)

(** Layers written before the block of position [k], when position [j]
    gets [f j] layers. *)
Fixpoint offset (f : nat → nat) (k : nat) : nat :=
  match k with
  | O => 0
  | S k' => offset f k' + f k'
  end.

(** Code whose only effects are printed lines. *)
Definition prints_only {A} (m : M A) : Prop :=
  Forall (fun e => ∃ line, e = Print line) m.1.

(** What [DeviceMover.forward] does to one argument. *)
Definition relocate (device : Z) (v : DeviceMover.value) : DeviceMover.value :=
  if DeviceMover.is_tensor v then DeviceMover.to device v else v.

(** A value that is not a tensor on another device than [device]. *)
Definition settled (device : Z) (v : DeviceMover.value) : Prop :=
  match v with
  | DeviceMover.Tensor d _ => d = device
  | _ => True
  end.

(** [sep.join(names)] *)
Fixpoint join (sep : string) (names : list string) : string :=
  match names with
  | [] => ""
  | name :: rest =>
      match rest with
      | [] => name
      | _ :: _ => name +:+ sep +:+ join sep rest
      end
  end.

(** Whether a character occurs in a string. *)
Fixpoint contains (c : ascii) (s : string) : bool :=
  match s with
  | EmptyString => false
  | String c' s' => bool_decide (c' = c) || contains c s'
  end.

(** The entry a sub-module gets in the plan, if any. *)
Definition kind_of (colwise rowwise : list Re.regex)
    (use_sequence_parallelism : bool) (nm : string * Module)
  : option ParallelStyle :=
  if use_sequence_parallelism && is_norm_or_dropout nm.2
  then Some SequenceParallel
  else if isinstance nm.2 nn_Linear
       then after_scans colwise rowwise nm.1 None
       else None.

(** ** Sample modules

    A transformer block shaped like the ones the strategies are applied to:
    a normalization, an attention with unfused projections and a gated
    feed-forward. *)

Module Sample.

Definition leaf (i : nat) (c : class) (text : string) : Module :=
  mkModule i c [UserClass "Module"] text Dict.empty [].

(** A linear module; two of them are one instance when they have one
    identity. *)
Definition linear (i : nat) : Module := leaf i nn_Linear "Linear()".

Definition in_proj : Module :=
  mkModule 3 (UserClass "UnfusedQKV") [UserClass "Module"] "UnfusedQKV()"
    Dict.empty
    [("query", linear 4); ("key", linear 5); ("value", linear 6)].

Definition attn : Module :=
  mkModule 2 (UserClass "MultiHeadAttention") [UserClass "Module"]
    "MultiHeadAttention()"
    [("nheads", 32); ("kvheads", 8)]
    [("in_proj", in_proj); ("dense", linear 7)].

Definition ff_sub_layer : Module :=
  mkModule 9 (UserClass "GatedLinearUnit") [UserClass "Module"]
    "GatedLinearUnit()" Dict.empty
    [("wg", linear 10); ("a", leaf 11 (UserClass "SiLU") "SiLU()");
     ("w1", linear 12); ("w2", linear 13)].

Definition block : Module :=
  mkModule 0 (UserClass "LLaMABlock") [UserClass "Module"] "LLaMABlock()"
    Dict.empty
    [("ln", leaf 1 LayerNormParameterized "LayerNormParameterized()");
     ("attn", attn);
     ("ff_ln", leaf 8 LayerNormParameterized "LayerNormParameterized()");
     ("ff_sub_layer", ff_sub_layer);
     ("dropout", leaf 14 nn_Dropout "Dropout(p=0.0)")].

(** A class that inherits from both [nn.Linear] and [nn.LayerNorm], under
    a name the row-wise patterns accept. *)
Definition linear_norm : Module :=
  mkModule 22 (UserClass "NormedLinear") [nn_Linear; nn_LayerNorm;
                                          UserClass "Module"]
    "NormedLinear()" Dict.empty [].

Definition odd_block : Module :=
  mkModule 20 (UserClass "Block") [UserClass "Module"] "Block()" Dict.empty
    [("attn",
      mkModule 21 (UserClass "Attention") [UserClass "Module"] "Attention()"
        Dict.empty [("dense", linear_norm)])].

(** A block with tied sub-modules: [w1] and [w2] of the feed-forward are one
    linear instance, and one dropout is registered under two names. *)
Definition tied_block : Module :=
  mkModule 30 (UserClass "TiedBlock") [UserClass "Module"] "TiedBlock()"
    Dict.empty
    [("ff_sub_layer",
      mkModule 31 (UserClass "GatedLinearUnit") [UserClass "Module"]
        "GatedLinearUnit()" Dict.empty
        [("w1", linear 32); ("w2", linear 32)]);
     ("dropout", leaf 33 nn_Dropout "Dropout(p=0.0)");
     ("resid_dropout", leaf 33 nn_Dropout "Dropout(p=0.0)")].

(** A process whose ignore list names two types. *)
Definition process : Process :=
  mkProcess
    [("DISTRIBUTED_STRATEGY_IGNORE_MODULES", "LLaMABlock,Dropout")]
    false false 1 0.

(** A process of rank 2 among 4, with sequence parallelism requested. *)
Definition ready : Process :=
  mkProcess [("USE_SEQUENCE_PARALLELISM", "True")] true false 4 2.

(** A strategy whose placement methods always fail. *)
Definition failing : DistributedStrategy :=
  {| from_meta := false;
     _distribute_module := fun _ _ _ =>
       raise (AssertionError "placement was invoked");
     _distribute_layer := fun _ _ _ =>
       raise (AssertionError "placement was invoked") |}.

(** Collaborators that hand back what they are given. *)
Definition torch : Torch :=
  {| init_device_mesh := fun device_type shape =>
       ret (mkMesh device_type shape);
     apply_tp := fun m _ => ret m;
     parallelize_module := fun m _ _ => ret m |}.

(** A tensor-parallel strategy over a mesh of three ranks. *)
Definition tp : TensorParallel.t :=
  TensorParallel.mk false WORLD false (mkMesh "cpu" [3]).

(** A device mover on device 1 around a module that returns the
    arguments it receives. *)
Definition mover
  : DeviceMover.t (list DeviceMover.value * Dict.t DeviceMover.value) :=
  DeviceMover.mk _ (fun args kwargs => ret (args, kwargs)) 1.

Definition args : list DeviceMover.value :=
  [ DeviceMover.Tensor 0 [1; 2];
    DeviceMover.Other "x";
    DeviceMover.Tuple [DeviceMover.Tensor 0 [3]] ].

Definition kwargs : Dict.t DeviceMover.value :=
  [ ("mask", DeviceMover.Tensor 0 [1]);
    ("use_cache", DeviceMover.Other "True") ].

(** A store with a module, object 0 with the dictionary at address 0, and
    a new object 1 with the dictionary at address 1. *)
Definition store : Objects.store :=
  Objects.mkStore (fun o => o)
    (fun a => if decide (a = 0%nat)
              then [("training", Objects.VInt 1);
                    ("device", Objects.VStr "meta")]
              else [])
    [].

(** The attributes a module starts with. *)
Definition fresh : Dict.t Objects.pyval := [("training", Objects.VInt 1)].

(** Relocation that leaves the module as it is. *)
Definition relocation : UniformPlacement.Relocation :=
  UniformPlacement.mkRelocation (fun m _ => m) (fun m _ => m).

End Sample.

(** * Properties *)

(** ** The uniform mapper *)

Section UniformFacts.
Import Uniform.

Lemma norm_index_in (n : nat) (i : nat) :
  (i < n)%nat → norm_index n (Z.of_nat i) = Some i.
Proof.
  intros Hi. unfold norm_index.
  destruct (decide _) as [_|Hn]; [by rewrite Nat2Z.id | lia].
Qed.

Lemma getitem_lookup {A} (l : list A) (i : nat) (x : A) :
  l !! i = Some x → getitem l (Z.of_nat i) = Ok x.
Proof.
  intros Hl. unfold getitem.
  rewrite norm_index_in by (by eapply lookup_lt_Some).
  by rewrite Hl.
Qed.

Lemma assign_ok devices i d pre m r :
  devices !! i = Some d →
  assign devices (Z.of_nat i) (at_state pre (S m) r)
  = Ok (at_state (pre ++ [d]) m r).
Proof.
  intros Hd. unfold assign, at_state; cbn [layer_to_device layer_id remainder].
  rewrite (getitem_lookup _ _ _ Hd); cbn [rbind].
  unfold setitem.
  rewrite norm_index_in by (rewrite length_app, length_replicate; lia).
  cbn [rbind]. f_equal. f_equal.
  - rewrite insert_app_r_alt by lia. rewrite Nat.sub_diag. cbn.
    by rewrite <- app_assoc.
  - rewrite length_app. cbn. lia.
Qed.

Lemma inner_ok {A} devices i d (xs : list A) pre m r :
  devices !! i = Some d →
  for_each xs (fun _ s => assign devices (Z.of_nat i) s)
    (at_state pre (length xs + m) r)
  = Ok (at_state (pre ++ replicate (length xs) d) m r).
Proof.
  intros Hd. revert pre. induction xs as [|x xs IH]; intros pre.
  - cbn. by rewrite app_nil_r.
  - cbn [for_each length Nat.add]. rewrite (assign_ok _ _ _ _ _ _ Hd).
    rewrite IH. cbn [replicate]. by rewrite <- app_assoc.
Qed.

Lemma length_range n : length (range n) = Z.to_nat n.
Proof. unfold range. by rewrite length_fmap, length_seq. Qed.

Lemma dev_body_ok devices base i d pre m r :
  devices !! i = Some d →
  dev_body devices base (Z.of_nat i) (at_state pre (cnt base r 0 + m) r)
  = Ok (at_state (pre ++ replicate (cnt base r 0) d) m
          (if decide (r > 0) then r - 1 else r)).
Proof.
  intros Hd. unfold dev_body, cnt.
  replace (Z.to_nat base + (if decide (Z.of_nat 0 < r)%Z then 1 else 0) + m)%nat
    with (length (range base)
          + ((if decide (Z.of_nat 0 < r)%Z then 1 else 0) + m))%nat
    by (rewrite length_range; lia).
  rewrite (inner_ok _ _ _ _ _ _ _ Hd). cbn [rbind at_state remainder].
  rewrite length_range.
  destruct (decide (r > 0)) as [Hr|Hr].
  - destruct (decide (Z.of_nat 0 < r)) as [_|?]; [|lia].
    change (1 + m)%nat with (S m).
    rewrite (assign_ok _ _ _ _ _ _ Hd).
    replace (Z.to_nat base + 1)%nat with (S (Z.to_nat base)) by lia.
    rewrite replicate_S_end. unfold at_state.
    cbn [rbind layer_to_device layer_id remainder].
    rewrite <- !app_assoc. reflexivity.
  - destruct (decide (Z.of_nat 0 < r)) as [?|_]; [lia|].
    cbn [Nat.add]. by rewrite Nat.add_0_r.
Qed.

(** The blocks written for the devices [l] when [r] extra layers are
    still to be handed out. *)
Lemma cnt_shift base r j :
  cnt base r (S j) = cnt base (if decide (r > 0) then r - 1 else r) j.
Proof.
  unfold cnt. destruct (decide (r > 0));
    repeat destruct (decide _); lia.
Qed.

Lemma written_cons base r (d : Z) (l : list Z) :
  concat (imap (fun j x => replicate (cnt base r j) x) (d :: l))
  = replicate (cnt base r 0) d
    ++ concat (imap (fun j x =>
                       replicate
                         (cnt base (if decide (r > 0) then r - 1 else r) j) x)
                    l).
Proof.
  cbn [imap concat]. f_equal. f_equal.
  apply imap_ext. intros j x _. cbn. by rewrite cnt_shift.
Qed.

Lemma length_written base r (l : list Z) :
  0 ≤ base →
  Z.of_nat (length (concat (imap (fun j x => replicate (cnt base r j) x) l)))
  = Z.of_nat (length l) * base + Z.min (Z.max r 0) (Z.of_nat (length l)).
Proof.
  intros Hb. revert r. induction l as [|d l IH]; intros r.
  - cbn. lia.
  - rewrite written_cons, length_app, length_replicate, Nat2Z.inj_add, IH.
    cbn [length]. unfold cnt.
    destruct (decide (r > 0)); destruct (decide (Z.of_nat 0 < r)); lia.
Qed.

Lemma outer_ok devices base back :
  ∀ front pre r m,
    devices = front ++ back →
    ∃ r',
      for_each (Z.of_nat <$> seq (length front) (length back))
        (dev_body devices base)
        (at_state pre
           (length (concat (imap (fun j x => replicate (cnt base r j) x)
                              back)) + m) r)
      = Ok (at_state
              (pre ++ concat (imap (fun j x => replicate (cnt base r j) x)
                                back)) m r').
Proof.
  induction back as [|d back IH]; intros front pre r m Hdev.
  - exists r. cbn. by rewrite app_nil_r.
  - assert (Hd : devices !! length front = Some d).
    { subst devices. rewrite lookup_app_r by lia.
      by rewrite Nat.sub_diag. }
    rewrite written_cons, length_app, length_replicate.
    cbn [length seq fmap list_fmap for_each]. rewrite <- Nat.add_assoc.
    rewrite (dev_body_ok _ _ _ _ _ _ _ Hd).
    destruct (IH (front ++ [d]) (pre ++ replicate (cnt base r 0) d)
                (if decide (r > 0) then r - 1 else r) m) as [r' Hr'].
    { subst devices. by rewrite <- app_assoc. }
    exists r'. rewrite length_app in Hr'. cbn [length] in Hr'.
    rewrite Nat.add_1_r in Hr'. rewrite Hr'. by rewrite <- app_assoc.
Qed.

Lemma cnt_share L D j :
  0 ≤ L → 0 < D → cnt (L / D) (L mod D) j = share L D j.
Proof.
  intros HL HD. unfold cnt, share.
  assert (0 ≤ L / D) by (apply Z.div_pos; lia).
  destruct (decide _); lia.
Qed.

Lemma init_blocks devices L :
  (1 ≤ length devices)%nat → 0 ≤ L →
  __init__ devices L = Ok (blocks devices L)
  ∧ length (blocks devices L) = Z.to_nat L.
Proof.
  intros HD HL. set (D := Z.of_nat (length devices)).
  assert (HD' : 0 < D) by (unfold D; lia).
  assert (Hbase : 0 ≤ L / D) by (apply Z.div_pos; lia).
  assert (Hblocks : blocks devices L
                    = concat (imap (fun j x =>
                                      replicate (cnt (L / D) (L mod D) j) x)
                                devices)).
  { unfold blocks. f_equal. apply imap_ext. intros j x _. cbn.
    by rewrite cnt_share. }
  assert (Hlen : length (blocks devices L) = Z.to_nat L).
  { apply Nat2Z.inj. rewrite Hblocks, length_written by done.
    fold D. pose proof (Z.mod_pos_bound L D HD').
    pose proof (Z.div_mod L D). lia. }
  split; [|done].
  unfold __init__, floordiv. fold D.
  destruct (decide (D = 0)) as [?|_]; [lia|]. cbn [rbind].
  destruct (outer_ok devices (L / D) devices [] [] (L mod D) 0%nat eq_refl)
    as [r' Hr'].
  rewrite <- Hblocks, Hlen, Nat.add_0_r in Hr'.
  unfold at_state in Hr'. cbn [length app replicate] in Hr'.
  rewrite app_nil_r in Hr'.
  unfold range. unfold D at 1. rewrite Nat2Z.id.
  replace (L - L / D * D) with (L mod D)
    by (pose proof (Z.div_mod L D); lia).
  unfold list_repeat. change (Z.of_nat 0) with 0 in Hr'.
  rewrite Hr'. reflexivity.
Qed.

Lemma elem_of_written (f : nat → nat) (l : list Z) (x : Z) :
  x ∈ concat (imap (fun j d => replicate (f j) d) l) → x ∈ l.
Proof.
  revert f. induction l as [|d l IH]; intros f; cbn [imap concat].
  - by intros ?%elem_of_nil.
  - intros [Hx|Hx]%elem_of_app.
    + apply elem_of_replicate_inv in Hx as ->. left.
    + right. by apply (IH (f ∘ S)).
Qed.

Lemma layers_on_replicate d n x :
  layers_on d (replicate n x) = if decide (x = d) then n else 0%nat.
Proof.
  unfold layers_on. induction n as [|n IH]; cbn [replicate].
  - by destruct (decide _).
  - rewrite filter_cons. destruct (decide (x = d)); cbn [length]; lia.
Qed.

Lemma layers_on_app d l1 l2 :
  layers_on d (l1 ++ l2) = (layers_on d l1 + layers_on d l2)%nat.
Proof. unfold layers_on. by rewrite filter_app, length_app. Qed.

Lemma layers_on_absent (f : nat → nat) (l : list Z) d :
  d ∉ l → layers_on d (concat (imap (fun j x => replicate (f j) x) l)) = 0%nat.
Proof.
  revert f. induction l as [|x l IH]; intros f Hd; cbn [imap concat].
  - reflexivity.
  - apply not_elem_of_cons in Hd as [Hne Hd].
    pose proof (IH (f ∘ S) Hd) as IH'.
    rewrite layers_on_app, layers_on_replicate.
    change (layers_on d (concat (imap (fun j x => replicate (f (S j)) x) l))
            = 0%nat) in IH'.
    change (imap (_ ∘ S) l) with (imap (fun j x => replicate (f (S j)) x) l).
    rewrite IH'. destruct (decide (x = d)); [congruence | lia].
Qed.

Lemma layers_on_at (f : nat → nat) (l : list Z) i d :
  NoDup l → l !! i = Some d →
  layers_on d (concat (imap (fun j x => replicate (f j) x) l)) = f i.
Proof.
  revert f i. induction l as [|x l IH]; intros f i Hnd Hi; [done|].
  apply NoDup_cons in Hnd as [Hx Hnd]. cbn [imap concat].
  rewrite layers_on_app, layers_on_replicate.
  destruct i as [|i]; cbn in Hi.
  - injection Hi as ->. rewrite decide_True by done.
    pose proof (layers_on_absent (f ∘ S) l d Hx) as Ha.
    change (imap (_ ∘ S) l) with (imap (fun j x => replicate ((f ∘ S) j) x) l).
    rewrite Ha. lia.
  - rewrite decide_False.
    + exact (IH (f ∘ S) i Hnd Hi).
    + intros ->. apply Hx. apply list_elem_of_lookup. eauto.
Qed.

End UniformFacts.

(** C1. For a device list of length D ≥ 1 and a layer count L ≥ 0 the
    constructor of the uniform mapper succeeds with a table of exactly L
    entries, each a member of the device list; the table is the
    concatenation, in device-list order, of one block per device; the block
    of the device at position i has ⌊L/D⌋+1 entries when i < L mod D and
    ⌊L/D⌋ entries otherwise, so two blocks differ in size by at most one;
    and when no device is listed twice the number of layers a device gets is
    the size of its block. *)
Theorem uniform_init_table (devices : list Z) (L : Z) :
  (1 ≤ length devices)%nat → 0 ≤ L →
  ∃ table : list Z,
    Uniform.__init__ devices L = Ok table
    ∧ length table = Z.to_nat L
    ∧ (∀ d, d ∈ table → d ∈ devices)
    ∧ table
      = concat (imap (fun i d =>
                        replicate
                          (Uniform.share L (Z.of_nat (length devices)) i) d)
                  devices)
    ∧ (∀ i, (i < length devices)%nat →
         Z.of_nat (Uniform.share L (Z.of_nat (length devices)) i)
         = if decide (Z.of_nat i < L mod Z.of_nat (length devices))
           then L / Z.of_nat (length devices) + 1
           else L / Z.of_nat (length devices))
    ∧ (∀ i j, (i < length devices)%nat → (j < length devices)%nat →
         (Uniform.share L (Z.of_nat (length devices)) i
          ≤ Uniform.share L (Z.of_nat (length devices)) j + 1)%nat)
    ∧ (NoDup devices →
       ∀ i d, devices !! i = Some d →
         Uniform.layers_on d table
         = Uniform.share L (Z.of_nat (length devices)) i).
Proof.
  intros HD HL. destruct (init_blocks devices L HD HL) as [Hinit Hlen].
  assert (0 ≤ L / Z.of_nat (length devices)) by (apply Z.div_pos; lia).
  exists (Uniform.blocks devices L). split_and!; try done.
  - intros d. apply elem_of_written.
  - intros i _. unfold Uniform.share. destruct (decide _); lia.
  - intros i j _ _. unfold Uniform.share. repeat destruct (decide _); lia.
  - intros Hnd i d Hi. by apply layers_on_at.
Qed.

(** The example of the specification: three devices and eight layers give
    blocks of three, three and two layers. *)
Lemma uniform_init_table_witness :
  ∃ table : list Z,
    Uniform.__init__ [0; 1; 2] 8 = Ok table
    ∧ length table = 8%nat
    ∧ (∀ d, d ∈ table → d ∈ [0; 1; 2])
    ∧ table = [0; 0; 0; 1; 1; 1; 2; 2]
    ∧ (∀ i, (i < 3)%nat →
         Z.of_nat (Uniform.share 8 3 i)
         = if decide (Z.of_nat i < 2) then 3 else 2)
    ∧ (∀ i j, (i < 3)%nat → (j < 3)%nat →
         (Uniform.share 8 3 i ≤ Uniform.share 8 3 j + 1)%nat)
    ∧ (NoDup [0; 1; 2] →
       ∀ i d, [0; 1; 2] !! i = Some d →
         Uniform.layers_on d table = Uniform.share 8 3 i).
Proof.
  exact (uniform_init_table [0; 1; 2] 8 ltac:(cbn; lia) ltac:(lia)).
Defined.

Example init_3_8 :
  Uniform.__init__ [0; 1; 2] 8 = Ok [0; 0; 0; 1; 1; 1; 2; 2].
Proof. reflexivity. Qed.

Example init_short : Uniform.__init__ [5; 6; 7] 2 = Ok [5; 6].
Proof. reflexivity. Qed.

Example init_no_device : Uniform.__init__ [] 4 = Raise ZeroDivisionError.
Proof. reflexivity. Qed.

(** With a device listed twice the blocks are still even, but the device
    collects the layers of both of its blocks. *)
Example init_repeated_device :
  Uniform.__init__ [0; 0; 1] 6 = Ok [0; 0; 0; 0; 1; 1]
  ∧ Uniform.layers_on 0 [0; 0; 0; 0; 1; 1] = 4%nat
  ∧ Uniform.layers_on 1 [0; 0; 0; 0; 1; 1] = 2%nat.
Proof. by vm_compute. Qed.

(** ** Dictionaries *)

Section DictFacts.
Context {V : Type}.
Implicit Types (d : Dict.t V) (k : string) (v : V).

Lemma get_empty k : Dict.get k (@Dict.empty V) = None.
Proof. reflexivity. Qed.

Lemma get_set_eq k v d : Dict.get k (Dict.set k v d) = Some v.
Proof.
  induction d as [|[k' v'] d IH]; cbn.
  - by rewrite decide_True.
  - destruct (decide (k = k')) as [->|Hne]; cbn.
    + by rewrite decide_True.
    + by rewrite decide_False.
Qed.

Lemma get_set_ne k k' v d :
  k ≠ k' → Dict.get k' (Dict.set k v d) = Dict.get k' d.
Proof.
  intros Hne. induction d as [|[k0 v0] d IH]; cbn.
  - by rewrite decide_False.
  - destruct (decide (k = k0)) as [->|Hne0]; cbn.
    + by rewrite !decide_False.
    + destruct (decide (k' = k0)); [done | apply IH].
Qed.

Lemma get_set k k' v d :
  Dict.get k' (Dict.set k v d)
  = if decide (k = k') then Some v else Dict.get k' d.
Proof.
  destruct (decide (k = k')) as [->|Hne].
  - apply get_set_eq.
  - by apply get_set_ne.
Qed.

Lemma get_None_keys k d : Dict.get k d = None ↔ k ∉ Dict.keys d.
Proof.
  unfold Dict.keys. induction d as [|[k' v'] d IH]; cbn.
  - split; [intros _; apply not_elem_of_nil | done].
  - rewrite not_elem_of_cons. destruct (decide (k = k')) as [->|Hne].
    + split; [done | by intros [? _]].
    + rewrite IH. tauto.
Qed.

Lemma get_Some_elem k v d : Dict.get k d = Some v → (k, v) ∈ d.
Proof.
  induction d as [|[k' v'] d IH]; cbn; [done|].
  destruct (decide (k = k')) as [->|Hne].
  - intros [= ->]. left.
  - intros H. right. by apply IH.
Qed.

Lemma get_elem_wf k v d : Dict.wf d → (k, v) ∈ d → Dict.get k d = Some v.
Proof.
  unfold Dict.wf, Dict.keys. induction d as [|[k' v'] d IH]; cbn.
  - by intros _ ?%elem_of_nil.
  - intros [Hk Hnd]%NoDup_cons [Heq|Hin]%elem_of_cons.
    + injection Heq as -> ->. by rewrite decide_True.
    + destruct (decide (k = k')) as [->|Hne]; [|by apply IH].
      exfalso. apply Hk. apply list_elem_of_fmap. by exists (k', v).
Qed.

Lemma set_fresh k v d :
  k ∉ Dict.keys d → Dict.set k v d = d ++ [(k, v)].
Proof.
  unfold Dict.keys. induction d as [|[k' v'] d IH]; cbn; [done|].
  intros [Hne Hk]%not_elem_of_cons.
  rewrite decide_False by done. by rewrite IH.
Qed.

End DictFacts.

(** ** Patterns *)

Section ReFacts.
Import Re.

Lemma append_assoc (s1 s2 s3 : string) :
  (s1 +:+ s2) +:+ s3 = s1 +:+ (s2 +:+ s3).
Proof.
  induction s1 as [|a s1 IH]; [done|].
  change (String a ((s1 +:+ s2) +:+ s3) = String a (s1 +:+ s2 +:+ s3)).
  by rewrite IH.
Qed.

Lemma app_empty_r (s : string) : s +:+ "" = s.
Proof.
  induction s as [|a s IH]; [done|].
  change (String a (s +:+ "") = String a s). by rewrite IH.
Qed.

Lemma accept_spec r : ∀ s k,
  accept r s k = true
  ↔ ∃ s1 s2, s = s1 +:+ s2 ∧ lang r s1 ∧ k s2 = true.
Proof.
  induction r as [|c|r1 IH1 r2 IH2|r1 IH1 r2 IH2]; intros s k;
    cbn [accept lang].
  - split.
    + intros Hk. by exists "", s.
    + by intros (s1 & s2 & -> & -> & Hk).
  - split.
    + destruct s as [|c' s]; [done|].
      case_decide as Hc; [subst c'|done].
      intros Hk. by exists (String c ""), s.
    + intros (s1 & s2 & -> & -> & Hk).
      change (String c "" +:+ s2) with (String c s2).
      cbv beta iota. by case_decide.
  - rewrite IH1. split.
    + intros (s1 & s2 & -> & H1 & (s3 & s4 & -> & H2 & Hk)%IH2).
      exists (s1 +:+ s3), s4. split_and!; [|by eauto|done].
      by rewrite append_assoc.
    + intros (s0 & s4 & -> & (s1 & s3 & -> & H1 & H2) & Hk).
      exists s1, (s3 +:+ s4). split_and!; [|done|].
      * by rewrite append_assoc.
      * apply IH2. by exists s3, s4.
  - rewrite orb_true_iff, IH1, IH2. split.
    + intros [(s1 & s2 & ? & ? & ?)|(s1 & s2 & ? & ? & ?)];
        exists s1, s2; tauto.
    + intros (s1 & s2 & ? & [?|?] & ?); [left|right]; by exists s1, s2.
Qed.

Lemma fullmatch_spec r s : fullmatch r s = true ↔ lang r s.
Proof.
  unfold fullmatch. rewrite accept_spec. split.
  - intros (s1 & s2 & -> & Hl & ->%bool_decide_eq_true).
    by rewrite app_empty_r.
  - intros Hl. exists s, "". by rewrite app_empty_r, bool_decide_eq_true.
Qed.

Lemma lang_lit p s : lang (lit p) s ↔ s = p.
Proof.
  revert s. induction p as [|c p IH]; intros s; cbn; [done|]. split.
  - intros (s1 & s2 & -> & -> & ->%IH). reflexivity.
  - intros ->. exists (String c ""), p. by rewrite IH.
Qed.

Lemma fullmatch_lit p s : fullmatch (lit p) s = true ↔ s = p.
Proof. by rewrite fullmatch_spec, lang_lit. Qed.

Lemma any_match_spec ps s :
  any_match ps s = true ↔ ∃ p, p ∈ ps ∧ lang p s.
Proof.
  unfold any_match. rewrite existsb_exists.
  setoid_rewrite fullmatch_spec. by setoid_rewrite list_elem_of_In.
Qed.

End ReFacts.

Ltac in_list :=
  repeat first [ apply list_elem_of_here | apply list_elem_of_further ].

(** The names the column-wise patterns accept. *)
Lemma colwise_names name :
  Re.any_match colwise_patterns name = true
  ↔ name ∈ ["attn.in_proj.qkv_fused"; "attn.in_proj.query";
            "attn.in_proj.key"; "attn.in_proj.value";
            "ff_sub_layer.wg1_fused"; "ff_sub_layer.w1"; "ff_sub_layer.wg"].
Proof.
  rewrite any_match_spec. unfold colwise_patterns. split.
  - intros (p & Hp & Hl). rewrite !elem_of_cons in Hp.
    destruct Hp as [->|[->|[->|[->|[->|Hp]]]]];
      [| |..]; try (apply lang_lit in Hl as ->; in_list).
    + destruct Hl as (s1 & s2 & -> & ->%lang_lit & Hl). cbn [Re.lang] in Hl.
      rewrite !lang_lit in Hl. destruct Hl as [->|[->| ->]]; in_list.
    + by apply elem_of_nil in Hp.
  - rewrite !elem_of_cons.
    intros [->|[->|[->|[->|[->|[->|[->|Hn]]]]]]];
      [ eexists; split; [apply list_elem_of_here|by apply lang_lit]
      | | | | | | | by apply elem_of_nil in Hn ].
    all: try (eexists; split;
              [ do 1 apply list_elem_of_further; apply list_elem_of_here
              | exists "attn.in_proj."; eexists; split_and!;
                [reflexivity | by apply lang_lit | cbn [Re.lang]; rewrite !lang_lit; tauto] ]).
    + eexists; split; [do 2 apply list_elem_of_further; apply list_elem_of_here|by apply lang_lit].
    + eexists; split; [do 3 apply list_elem_of_further; apply list_elem_of_here|by apply lang_lit].
    + eexists; split; [do 4 apply list_elem_of_further; apply list_elem_of_here|by apply lang_lit].
Qed.

(** The names the row-wise patterns accept. *)
Lemma rowwise_names name :
  Re.any_match rowwise_patterns name = true
  ↔ name ∈ ["attn.dense"; "ff_sub_layer.w2"].
Proof.
  rewrite any_match_spec. unfold rowwise_patterns. split.
  - intros (p & Hp & Hl). rewrite !elem_of_cons in Hp.
    destruct Hp as [->|[->|Hp]]; [| |by apply elem_of_nil in Hp];
      apply lang_lit in Hl as ->; in_list.
  - rewrite !elem_of_cons. intros [->|[->|Hn]]; [| |by apply elem_of_nil in Hn].
    + eexists; split; [apply list_elem_of_here|by apply lang_lit].
    + eexists; split; [apply list_elem_of_further, list_elem_of_here|by apply lang_lit].
Qed.

(** ** The trace monad *)

Lemma bind_ok {A B} (m : M A) (k : A → M B) tr a tr' r :
  m = (tr, Ok a) → k a = (tr', r) → bind m k = (tr ++ tr', r).
Proof. intros -> Hk. unfold bind. by rewrite Hk. Qed.

Lemma bind_ret_l {A B} (a : A) (k : A → M B) : bind ([], Ok a) k = k a.
Proof. unfold bind. by destruct (k a). Qed.


Lemma bind_raise {A B} (m : M A) (k : A → M B) tr e :
  m = (tr, Raise e) → bind m k = (tr, Raise e).
Proof. by intros ->. Qed.

Lemma forM_ok {A S} (body : A → S → M S) (f : S → A → S) (xs : list A) :
  (∀ x s, ∃ tr, body x s = (tr, Ok (f s x))) →
  ∀ s, ∃ tr, forM xs body s = (tr, Ok (foldl f s xs)).
Proof.
  intros Hbody. induction xs as [|x xs IH]; intros s; cbn [forM foldl].
  - by exists [].
  - destruct (Hbody x s) as [tr Hx]. destruct (IH (f s x)) as [tr' Hxs].
    exists (tr ++ tr'). by apply bind_ok with (a := f s x).
Qed.

(** ** The weight pattern classifier *)

Section ClassifierFacts.
Variables colwise rowwise : list Re.regex.
Variable usp : bool.

Lemma scan_any ps name style (plan : Dict.t ParallelStyle) :
  scan ps name style plan
  = if Re.any_match ps name then Dict.set name style plan else plan.
Proof.
  induction ps as [|p ps IH]; cbn [scan Re.any_match existsb]; [done|].
  destruct (Re.fullmatch p name); [done | apply IH].
Qed.

Lemma print_children_ok name module :
  ∃ tr, print_children name module = (tr, Ok tt).
Proof.
  unfold print_children. destruct (children module) as [|c cs] eqn:Hc.
  - by eexists.
  - destruct (forM_ok (fun child (_ : unit) => print ("*********" +:+ repr child))
                (fun _ _ => tt) (c :: cs)) with (s := tt) as [tr Htr].
    { intros x []. by eexists. }
    replace (foldl (fun (_ : unit) (_ : Module) => tt) tt (c :: cs)) with tt
      in Htr by (by destruct (foldl _ _ _)).
    eexists. eapply bind_ok; [reflexivity|].
    eapply bind_ok; [exact Htr|reflexivity].
Qed.

Lemma classify_ok nm plan :
  ∃ tr, classify colwise rowwise usp nm plan
        = (tr, Ok (plan_step colwise rowwise usp plan nm)).
Proof.
  destruct nm as [name module]. unfold classify, plan_step; cbn [fst snd].
  destruct (print_children_ok name module) as [tr Htr].
  destruct (usp && _) eqn:Hsp.
  - eexists. do 2 (eapply bind_ok; [reflexivity|]).
    eapply bind_ok; [exact Htr | reflexivity].
  - destruct (isinstance module nn_Linear).
    + eexists. do 2 (eapply bind_ok; [reflexivity|]).
      eapply bind_ok; [exact Htr | reflexivity].
    + eexists. do 2 (eapply bind_ok; [reflexivity|]).
      eapply bind_ok; [exact Htr |].
      eapply bind_ok; reflexivity.
Qed.

Lemma generate_ok block :
  ∃ tr, generate_layer_plan_with colwise rowwise block usp
        = (tr, Ok (foldl (plan_step colwise rowwise usp) Dict.empty
                     (named_modules block))).
Proof.
  unfold generate_layer_plan_with.
  destruct (forM_ok (classify colwise rowwise usp)
              (plan_step colwise rowwise usp) (named_modules block))
    with (s := @Dict.empty ParallelStyle) as [tr Htr].
  { intros x s. apply classify_ok. }
  eexists. eapply bind_ok; [exact Htr|].
  eapply bind_ok; reflexivity.
Qed.

Lemma get_scans name k plan :
  Dict.get k (scan rowwise name (RowwiseParallel None)
                (scan colwise name (ColwiseParallel None) plan))
  = if decide (name = k)
    then after_scans colwise rowwise k (Dict.get k plan)
    else Dict.get k plan.
Proof.
  rewrite !scan_any. unfold after_scans.
  destruct (decide (name = k)) as [->|Hne].
  - destruct (Re.any_match rowwise k); [by rewrite get_set_eq|].
    destruct (Re.any_match colwise k); [by rewrite get_set_eq|done].
  - destruct (Re.any_match rowwise name), (Re.any_match colwise name);
      by rewrite ?get_set_ne.
Qed.

Lemma get_plan_step k plan nm :
  Dict.get k (plan_step colwise rowwise usp plan nm)
  = if decide (nm.1 = k) then
      if usp && is_norm_or_dropout nm.2 then Some SequenceParallel
      else if isinstance nm.2 nn_Linear
           then after_scans colwise rowwise k (Dict.get k plan)
           else Dict.get k plan
    else Dict.get k plan.
Proof.
  unfold plan_step. fold (is_norm_or_dropout nm.2).
  destruct (usp && is_norm_or_dropout nm.2).
  - rewrite get_set. by destruct (decide _).
  - destruct (isinstance nm.2 nn_Linear).
    + apply get_scans.
    + by destruct (decide _).
Qed.

Lemma get_foldl_other k mods : ∀ plan,
  k ∉ mods.*1 →
  Dict.get k (foldl (plan_step colwise rowwise usp) plan mods)
  = Dict.get k plan.
Proof.
  induction mods as [|nm mods IH]; intros plan Hk; cbn [foldl]; [done|].
  cbn in Hk. apply not_elem_of_cons in Hk as [Hne Hk].
  rewrite IH by done. rewrite get_plan_step. by rewrite decide_False.
Qed.

(** With unique names the entry of a name is decided by the one
    iteration that visits it. *)
Lemma get_foldl_at name module mods plan :
  NoDup mods.*1 → (name, module) ∈ mods →
  Dict.get name (foldl (plan_step colwise rowwise usp) plan mods)
  = if usp && is_norm_or_dropout module then Some SequenceParallel
    else if isinstance module nn_Linear
         then after_scans colwise rowwise name (Dict.get name plan)
         else Dict.get name plan.
Proof.
  intros Hnd Hin. apply list_elem_of_split in Hin as (l1 & l2 & ->).
  rewrite fmap_app, fmap_cons in Hnd. cbn [fst] in Hnd.
  apply NoDup_app in Hnd as (_ & Hl1 & [Hl2 _]%NoDup_cons).
  rewrite foldl_app. cbn [foldl]. rewrite get_foldl_other by done.
  rewrite get_plan_step. cbn [fst snd]. rewrite decide_True by done.
  rewrite get_foldl_other; [done|].
  intros Hk. apply (Hl1 _ Hk). left.
Qed.

Lemma after_scans_idem k o :
  after_scans colwise rowwise k (after_scans colwise rowwise k o)
  = after_scans colwise rowwise k o.
Proof.
  unfold after_scans.
  by destruct (Re.any_match rowwise k), (Re.any_match colwise k).
Qed.

End ClassifierFacts.

(** Without sequence parallelism the entry of a name depends only on the
    name and on whether some linear sub-module carries it. *)
Lemma get_foldl_off colwise rowwise k mods : ∀ plan,
  Dict.get k (foldl (plan_step colwise rowwise false) plan mods)
  = if existsb (fun nm : string * Module =>
                  bool_decide (nm.1 = k) && isinstance nm.2 nn_Linear) mods
    then after_scans colwise rowwise k (Dict.get k plan)
    else Dict.get k plan.
Proof.
  induction mods as [|nm mods IH]; intros plan; cbn [foldl existsb]; [done|].
  rewrite IH, get_plan_step. cbn [andb].
  destruct (decide (nm.1 = k)) as [Hk|Hk].
  - rewrite (bool_decide_eq_true_2 _ Hk). cbn [andb].
    destruct (isinstance nm.2 nn_Linear); cbn [orb]; [|done].
    rewrite after_scans_idem. by destruct (existsb _ _).
  - rewrite (bool_decide_eq_false_2 _ Hk). reflexivity.
Qed.

Lemma existsb_linear k (module : Module) mods :
  (k, module) ∈ mods → isinstance module nn_Linear = true →
  existsb (fun nm : string * Module =>
             bool_decide (nm.1 = k) && isinstance nm.2 nn_Linear) mods = true.
Proof.
  intros Hin Hlin. apply existsb_exists. exists (k, module).
  rewrite <- list_elem_of_In. split; [done|]. cbn [fst snd].
  by rewrite bool_decide_eq_true_2, Hlin.
Qed.

(** C2. With sequence parallelism off, for a layer whose linear sub-modules
    include ones named attn.in_proj.query, attn.dense, ff_sub_layer.w1 and
    ff_sub_layer.w2, the classifier returns a plan that maps
    attn.in_proj.query and ff_sub_layer.w1 to column-sharded, attn.dense and
    ff_sub_layer.w2 to row-sharded, and has no entry for any name that
    matches neither the column-wise nor the row-wise patterns. The names of
    the sub-modules are those the traversal of the layer yields them under:
    an instance registered under several names has the first of them. *)
Theorem plan_without_sequence_parallelism (block q d w1 w2 : Module) :
  ("attn.in_proj.query", q) ∈ named_modules block →
  isinstance q nn_Linear = true →
  ("attn.dense", d) ∈ named_modules block →
  isinstance d nn_Linear = true →
  ("ff_sub_layer.w1", w1) ∈ named_modules block →
  isinstance w1 nn_Linear = true →
  ("ff_sub_layer.w2", w2) ∈ named_modules block →
  isinstance w2 nn_Linear = true →
  ∃ tr tp_plan,
    generate_layer_plan block false = (tr, Ok tp_plan)
    ∧ Dict.get "attn.in_proj.query" tp_plan = Some (ColwiseParallel None)
    ∧ Dict.get "attn.dense" tp_plan = Some (RowwiseParallel None)
    ∧ Dict.get "ff_sub_layer.w1" tp_plan = Some (ColwiseParallel None)
    ∧ Dict.get "ff_sub_layer.w2" tp_plan = Some (RowwiseParallel None)
    ∧ (∀ name,
         Re.any_match colwise_patterns name = false →
         Re.any_match rowwise_patterns name = false →
         Dict.get name tp_plan = None).
Proof.
  intros Hq Lq Hd Ld Hw1 Lw1 Hw2 Lw2.
  destruct (generate_ok colwise_patterns rowwise_patterns false block)
    as [tr Htr].
  exists tr. eexists. split; [exact Htr|].
  split_and!; try (rewrite get_foldl_off;
                   erewrite existsb_linear by eassumption; reflexivity).
  intros name Hc Hr. rewrite get_foldl_off. unfold after_scans.
  rewrite Hc, Hr. by destruct (existsb _ _).
Qed.

(** The sample block: every hypothesis holds and the plan is as stated. *)
Lemma plan_without_sequence_parallelism_witness :
  ∃ tr tp_plan,
    generate_layer_plan Sample.block false = (tr, Ok tp_plan)
    ∧ Dict.get "attn.in_proj.query" tp_plan = Some (ColwiseParallel None)
    ∧ Dict.get "attn.dense" tp_plan = Some (RowwiseParallel None)
    ∧ Dict.get "ff_sub_layer.w1" tp_plan = Some (ColwiseParallel None)
    ∧ Dict.get "ff_sub_layer.w2" tp_plan = Some (RowwiseParallel None)
    ∧ (∀ name,
         Re.any_match colwise_patterns name = false →
         Re.any_match rowwise_patterns name = false →
         Dict.get name tp_plan = None).
Proof.
  apply (plan_without_sequence_parallelism Sample.block
           (Sample.linear 4) (Sample.linear 7) (Sample.linear 12)
           (Sample.linear 13));
    first [ reflexivity | vm_compute; in_list ].
Defined.

Example sample_plan_off :
  (generate_layer_plan Sample.block false).2
  = Ok [ ("attn.in_proj.query", ColwiseParallel None);
         ("attn.in_proj.key", ColwiseParallel None);
         ("attn.in_proj.value", ColwiseParallel None);
         ("attn.dense", RowwiseParallel None);
         ("ff_sub_layer.wg", ColwiseParallel None);
         ("ff_sub_layer.w1", ColwiseParallel None);
         ("ff_sub_layer.w2", RowwiseParallel None) ].
Proof. reflexivity. Qed.

Example sample_names :
  (named_modules Sample.block).*1
  = [ ""; "ln"; "attn"; "attn.in_proj"; "attn.in_proj.query";
      "attn.in_proj.key"; "attn.in_proj.value"; "attn.dense"; "ff_ln";
      "ff_sub_layer"; "ff_sub_layer.wg"; "ff_sub_layer.a";
      "ff_sub_layer.w1"; "ff_sub_layer.w2"; "dropout" ].
Proof. reflexivity. Qed.

(** C9. With sequence parallelism on, every named sub-module that is a
    normalization or a dropout has the entry sequence-parallel in the plan;
    the iteration that visits it records that entry whatever its name and
    whether or not it is also linear, so the column-wise and row-wise scans
    are not applied to it. The named sub-modules are those the traversal of
    the block yields, an instance registered under several names once, under
    the first; the names yielded are unique, as in every module tree. *)
Theorem sequence_parallel_precedence (block : Module) (name : string)
    (module : Module) :
  NoDup (named_modules block).*1 →
  (name, module) ∈ named_modules block →
  is_norm_or_dropout module = true →
  ∃ tr tp_plan,
    generate_layer_plan block true = (tr, Ok tp_plan)
    ∧ Dict.get name tp_plan = Some SequenceParallel
    ∧ (∀ before, ∃ tr',
         classify colwise_patterns rowwise_patterns true (name, module) before
         = (tr', Ok (Dict.set name SequenceParallel before))).
Proof.
  intros Hnd Hin Hnorm.
  destruct (generate_ok colwise_patterns rowwise_patterns true block)
    as [tr Htr].
  exists tr. eexists. split; [exact Htr|]. split.
  - rewrite (get_foldl_at _ _ _ name module) by done. by rewrite Hnorm.
  - intros before.
    destruct (classify_ok colwise_patterns rowwise_patterns true
                (name, module) before) as [tr' Htr'].
    exists tr'. rewrite Htr'. unfold plan_step. cbn [fst snd].
    fold (is_norm_or_dropout module). by rewrite Hnorm.
Qed.

(** A sub-module that is both a normalization and linear, under a name the
    row-wise patterns accept, is marked sequence-parallel. *)
Lemma sequence_parallel_precedence_witness :
  ∃ tr tp_plan,
    generate_layer_plan Sample.odd_block true = (tr, Ok tp_plan)
    ∧ Dict.get "attn.dense" tp_plan = Some SequenceParallel
    ∧ (∀ before, ∃ tr',
         classify colwise_patterns rowwise_patterns true
           ("attn.dense", Sample.linear_norm) before
         = (tr', Ok (Dict.set "attn.dense" SequenceParallel before))).
Proof.
  apply (sequence_parallel_precedence Sample.odd_block "attn.dense"
           Sample.linear_norm).
  - vm_compute. repeat constructor; rewrite ?elem_of_cons, ?elem_of_nil;
      intuition discriminate.
  - vm_compute. in_list.
  - reflexivity.
Defined.

Example odd_block_plans :
  (generate_layer_plan Sample.odd_block true).2
  = Ok [("attn.dense", SequenceParallel)]
  ∧ (generate_layer_plan Sample.odd_block false).2
    = Ok [("attn.dense", RowwiseParallel None)]
  ∧ isinstance Sample.linear_norm nn_Linear = true
  ∧ Re.any_match rowwise_patterns "attn.dense" = true.
Proof. by vm_compute. Qed.

Example sample_plan_on :
  (generate_layer_plan Sample.block true).2
  = Ok [ ("ln", SequenceParallel);
         ("attn.in_proj.query", ColwiseParallel None);
         ("attn.in_proj.key", ColwiseParallel None);
         ("attn.in_proj.value", ColwiseParallel None);
         ("attn.dense", RowwiseParallel None);
         ("ff_ln", SequenceParallel);
         ("ff_sub_layer.wg", ColwiseParallel None);
         ("ff_sub_layer.w1", ColwiseParallel None);
         ("ff_sub_layer.w2", RowwiseParallel None);
         ("dropout", SequenceParallel) ].
Proof. reflexivity. Qed.

(** No name is accepted by both of the pattern lists the classifier ships
    with, so there the two scans never write the same entry. *)
Lemma shipped_patterns_disjoint name :
  ¬ (Re.any_match colwise_patterns name = true
     ∧ Re.any_match rowwise_patterns name = true).
Proof.
  rewrite colwise_names, rowwise_names. rewrite !elem_of_cons, !elem_of_nil.
  intros [Hc Hr].
  destruct Hr as [->|[->|[]]];
    repeat (destruct Hc as [Hc|Hc]; [discriminate Hc|]); done.
Qed.

(** ** The ignore-list gate *)

(** C4. Whatever the strategy, a module or layer whose type name is in the
    ignore list comes back from [distribute_module] and [distribute_layer]
    as it was given, after one notice has been printed; the outcome does not
    mention the strategy's placement methods, which are not run. *)
Theorem ignored_is_returned_unchanged (P : Process)
    (self : DistributedStrategy) (module : Module) (final_layers : bool)
    (layer : Z) (model : option string) :
  type_name module ∈ _distributed_strategy_ignore_modules P →
  distribute_module P self module final_layers model
  = ([Print ("ignoring module=" +:+ type_name module
             +:+ " when distributing module")],
     Ok (Some module))
  ∧ distribute_layer P self module layer model
    = ([Print ("ignoring block=" +:+ type_name module
               +:+ " when distributing layer")],
       Ok (Some module)).
Proof.
  intros Hin. unfold distribute_module, distribute_layer, __should_distribute.
  rewrite bool_decide_eq_false_2 by (intros Hn; by apply Hn).
  split; reflexivity.
Qed.

(** The sample block is ignored even by a strategy whose placement fails. *)
Lemma ignored_is_returned_unchanged_witness :
  distribute_module Sample.process Sample.failing Sample.block true
    (Some "llama")
  = ([Print "ignoring module=LLaMABlock when distributing module"],
     Ok (Some Sample.block))
  ∧ distribute_layer Sample.process Sample.failing Sample.block 7
      (Some "llama")
    = ([Print "ignoring block=LLaMABlock when distributing layer"],
       Ok (Some Sample.block)).
Proof.
  apply (ignored_is_returned_unchanged Sample.process Sample.failing
           Sample.block true 7 (Some "llama")).
  vm_compute. in_list.
Defined.

Example ignore_list_of_sample :
  _distributed_strategy_ignore_modules Sample.process
  = ["LLaMABlock"; "Dropout"].
Proof. reflexivity. Qed.

Example not_ignored_is_placed :
  distribute_module Sample.process Sample.failing Sample.attn false None
  = ([], Raise (AssertionError "placement was invoked")).
Proof. reflexivity. Qed.

(** ** The tensor-parallel strategy *)

Lemma tag_dispatch (model : string) :
  model ≠ "" → model ≠ "llama" → model ≠ "granite" →
  TensorParallel.falsy (Some model) = false
  ∧ TensorParallel.is_tag (Some model) "llama" = false
  ∧ TensorParallel.is_tag (Some model) "granite" = false.
Proof.
  intros H0 H1 H2. unfold TensorParallel.falsy, TensorParallel.is_tag.
  split_and!; apply bool_decide_eq_false_2; congruence.
Qed.

(** C5. For a non-empty model tag other than llama and granite the layer
    placement of the tensor-parallel strategy raises the unsupported-model
    error, before anything is printed or called, and returns no value. *)
Theorem unsupported_model_raises (T : Torch) (P : Process)
    (self : TensorParallel.t) (block : Module) (layer : Z) (model : string) :
  model ≠ "" → model ≠ "llama" → model ≠ "granite" →
  TensorParallel._distribute_layer T P self block layer (Some model)
  = ([], Raise (ValueError ("Unsupported model: " +:+ model))).
Proof.
  intros H0 H1 H2. destruct (tag_dispatch model H0 H1 H2) as (Hf & Hl & Hg).
  unfold TensorParallel._distribute_layer. rewrite Hf, Hl, Hg. reflexivity.
Qed.

Lemma unsupported_model_raises_witness :
  TensorParallel._distribute_layer Sample.torch Sample.process Sample.tp
    Sample.block 0 (Some "mixtral")
  = ([], Raise (ValueError "Unsupported model: mixtral")).
Proof.
  apply (unsupported_model_raises Sample.torch Sample.process Sample.tp
           Sample.block 0 "mixtral"); discriminate.
Defined.

(** C6. Without an initialized process group the constructor of the
    tensor-parallel strategy fails with the assertion error right after
    asking whether a group is initialized: the default group is not
    resolved, the environment is not read, nothing is printed and no device
    mesh is created. *)
Theorem init_requires_process_group (T : Torch) (P : Process)
    (group : option Group) (from_meta : bool) :
  initialized P = false →
  TensorParallel.__init__ T P group from_meta
  = ([Called dist_is_initialized],
     Raise (AssertionError "must initialize a process group")).
Proof.
  intros Hini. unfold TensorParallel.__init__. rewrite Hini. reflexivity.
Qed.

Lemma init_requires_process_group_witness :
  TensorParallel.__init__ Sample.torch Sample.process None false
  = ([Called dist_is_initialized],
     Raise (AssertionError "must initialize a process group")).
Proof.
  apply (init_requires_process_group Sample.torch Sample.process None false).
  reflexivity.
Defined.

Example init_ready :
  TensorParallel.__init__ Sample.torch Sample.ready None true
  = ([ Called dist_is_initialized;
       Called dist_GroupMember_WORLD;
       Called (os_getenv "USE_SEQUENCE_PARALLELISM");
       Print "Using TP strategy with sequence parallelism";
       Called cuda_is_available;
       Called dist_get_world_size;
       Called (call_init_device_mesh "cpu" [4]) ],
     Ok (TensorParallel.mk true WORLD true (mkMesh "cpu" [4]))).
Proof. reflexivity. Qed.

(** X22. When the mesh constructor returns a mesh of the shape it is asked
    for, the mesh of a constructed strategy has as many ranks as the world,
    so the head counts are divided by the world size. *)
Lemma init_mesh_size (T : Torch) (P : Process) (group : option Group)
    (from_meta : bool) tr (self : TensorParallel.t) :
  (∀ device_type shape tr' mesh,
     init_device_mesh T device_type shape = (tr', Ok mesh) →
     mesh_shape mesh = shape) →
  TensorParallel.__init__ T P group from_meta = (tr, Ok self) →
  mesh_size (TensorParallel.device_mesh self) = world_size P.
Proof.
  intros Hmesh. unfold TensorParallel.__init__, getenv.
  destruct (initialized P); [|discriminate].
  destruct (init_device_mesh T (if cuda P then "cuda" else "cpu")
              [world_size P]) as [tr' [mesh|e]] eqn:Hm.
  - apply Hmesh in Hm.
    destruct group; cbn; destruct (bool_decide (lower _ = "true")); cbn;
      intros [= _ <-]; cbn; unfold mesh_size; rewrite Hm; cbn; lia.
  - destruct group; cbn; destruct (bool_decide (lower _ = "true")); cbn;
      discriminate.
Qed.

(** C8. For a non-empty model tag other than llama and granite the module
    placement of the tensor-parallel strategy runs through all its branches
    without effect: no error, no call, and the result is Python's [None]. *)
Theorem unrecognized_tag_falls_through (T : Torch) (self : TensorParallel.t)
    (module : Module) (final_layers : bool) (model : string) :
  model ≠ "" → model ≠ "llama" → model ≠ "granite" →
  TensorParallel._distribute_module T self module final_layers (Some model)
  = ([], Ok None).
Proof.
  intros H0 H1 H2. destruct (tag_dispatch model H0 H1 H2) as (Hf & Hl & Hg).
  unfold TensorParallel._distribute_module. rewrite Hf, Hl, Hg. reflexivity.
Qed.

Lemma unrecognized_tag_falls_through_witness :
  TensorParallel._distribute_module Sample.torch Sample.tp Sample.block true
    (Some "mixtral")
  = ([], Ok None).
Proof.
  apply (unrecognized_tag_falls_through Sample.torch Sample.tp Sample.block
           true "mixtral"); discriminate.
Defined.

Lemma floordiv_ok a b : b ≠ 0 → floordiv a b = Ok (a / b).
Proof. intros Hb. unfold floordiv. by rewrite decide_False. Qed.



Example truncated_heads :
  (let? block' := TensorParallel.adjust_heads Sample.tp Sample.block in
   let? attn' := TensorParallel.getattr_module block' "attn" in
   Ok (attrs attn'))%res
  = Ok [("nheads", 10); ("kvheads", 2)]
  ∧ 32 mod 3 = 2 ∧ 8 mod 3 = 2.
Proof. by vm_compute. Qed.

(** ** The device mover *)

Section DeviceMoverFacts.
Import DeviceMover.
Variable dev : Z.

(** What [forward] does to one argument. *)
Let moved (v : value) : value := if is_tensor v then to dev v else v.
Let moved_item (kv : string * value) : string * value := (kv.1, moved kv.2).

Lemma keys_moved (d : Dict.t value) :
  Dict.keys (moved_item <$> d) = Dict.keys d.
Proof.
  unfold Dict.keys. rewrite <- list_fmap_compose.
  by apply list_fmap_ext.
Qed.

Lemma kwargs_loop (kwargs : Dict.t value) :
  Dict.wf kwargs →
  ∀ todo done,
    kwargs = done ++ todo →
    for_each (Dict.keys todo)
      (fun k acc =>
         (let? v := Dict.getitem k kwargs in
          Ok (Dict.set k (if is_tensor v then to dev v else v) acc))%res)
      (moved_item <$> done)
    = Ok (moved_item <$> kwargs).
Proof.
  intros Hwf. induction todo as [|[k v] todo IH]; intros done Hk.
  - rewrite app_nil_r in Hk. by subst.
  - cbn [Dict.keys fmap list_fmap for_each fst].
    assert (Hget : Dict.get k kwargs = Some v).
    { apply get_elem_wf; [done|]. subst kwargs.
      apply elem_of_app. right. left. }
    unfold Dict.getitem. rewrite Hget. cbn [rbind].
    rewrite set_fresh.
    + specialize (IH (done ++ [(k, v)])).
      rewrite fmap_app in IH. apply IH. subst kwargs.
      by rewrite <- app_assoc.
    + rewrite keys_moved. unfold Dict.wf, Dict.keys in Hwf.
      subst kwargs. rewrite fmap_app in Hwf.
      apply NoDup_app in Hwf as (_ & Hdis & _).
      intros Hin. apply (Hdis _ Hin). left.
Qed.

End DeviceMoverFacts.

(** C3. An invocation of the device mover with any positional arguments and
    any keyword arguments calls the wrapped module once, with as many
    positional arguments and the same keywords in the same order; an
    argument that is a tensor arrives as the same tensor on the target
    device, any other argument arrives as it was; and what the wrapped
    module produces, result or exception, is the outcome of the invocation
    as it stands. *)
Theorem forward_moves_tensor_arguments {R : Type} (self : DeviceMover.t R)
    (args : list DeviceMover.value) (kwargs : Dict.t DeviceMover.value) :
  Dict.wf kwargs →
  ∃ args' kwargs',
    DeviceMover.forward self args kwargs
    = DeviceMover.module self args' kwargs'
    ∧ Forall2 (fun v v' =>
                 match v with
                 | DeviceMover.Tensor _ data =>
                     v' = DeviceMover.Tensor (DeviceMover.device self) data
                 | _ => v' = v
                 end) args args'
    ∧ Forall2 (fun kv kv' : string * DeviceMover.value =>
                 kv'.1 = kv.1
                 ∧ match kv.2 with
                   | DeviceMover.Tensor _ data =>
                       kv'.2
                       = DeviceMover.Tensor (DeviceMover.device self) data
                   | _ => kv'.2 = kv.2
                   end) kwargs kwargs'.
Proof.
  intros Hwf.
  eexists _, _. split_and!.
  - pose proof (kwargs_loop (DeviceMover.device self) kwargs Hwf kwargs []
                  eq_refl) as Hloop.
    cbn [fmap list_fmap] in Hloop.
    unfold DeviceMover.forward, Dict.empty. rewrite Hloop.
    unfold lift. apply bind_ret_l.
  - apply Forall2_fmap_r, Forall_Forall2_diag, Forall_forall.
    intros v _. by destruct v.
  - apply Forall2_fmap_r, Forall_Forall2_diag, Forall_forall.
    intros [k v] _. cbn [fst snd]. by destruct v.
Qed.

Lemma forward_without_arguments {R : Type} (self : DeviceMover.t R) :
  DeviceMover.forward self [] [] = DeviceMover.module self [] [].
Proof. unfold DeviceMover.forward. cbn. by destruct (DeviceMover.module _ _ _). Qed.

(** A tensor, a string and a tuple holding a tensor, with two keywords. *)
Lemma forward_moves_tensor_arguments_witness :
  ∃ args' kwargs',
    DeviceMover.forward Sample.mover Sample.args Sample.kwargs
    = DeviceMover.module Sample.mover args' kwargs'
    ∧ Forall2 (fun v v' =>
                 match v with
                 | DeviceMover.Tensor _ data =>
                     v' = DeviceMover.Tensor 1 data
                 | _ => v' = v
                 end) Sample.args args'
    ∧ Forall2 (fun kv kv' : string * DeviceMover.value =>
                 kv'.1 = kv.1
                 ∧ match kv.2 with
                   | DeviceMover.Tensor _ data =>
                       kv'.2 = DeviceMover.Tensor 1 data
                   | _ => kv'.2 = kv.2
                   end) Sample.kwargs kwargs'.
Proof.
  apply (forward_moves_tensor_arguments Sample.mover Sample.args
           Sample.kwargs).
  vm_compute. repeat constructor; rewrite ?elem_of_cons, ?elem_of_nil;
    intuition discriminate.
Defined.

Example forward_sample :
  DeviceMover.forward Sample.mover Sample.args Sample.kwargs
  = ([], Ok ([ DeviceMover.Tensor 1 [1; 2];
               DeviceMover.Other "x";
               DeviceMover.Tuple [DeviceMover.Tensor 0 [3]] ],
             [ ("mask", DeviceMover.Tensor 1 [1]);
               ("use_cache", DeviceMover.Other "True") ])).
Proof. reflexivity. Qed.

(** ** Module trees: names are unique *)

Section TreeFacts.

Lemma Module_tree_ind (P : Module → Prop) :
  (∀ i c b r a ms, Forall (fun nc => P nc.2) ms → P (mkModule i c b r a ms)) →
  ∀ m, P m.
Proof.
  intros H. fix IH 1. intros [i c b r a ms]. apply H.
  induction ms as [|[n x] ms IHms]; constructor; [apply IH | apply IHms].
Qed.

Lemma registered_from_eq prefix i c b r a ms :
  registered_from prefix (mkModule i c b r a ms)
  = (prefix, mkModule i c b r a ms)
    :: flat_map (fun nc => registered_from (sub_prefix prefix nc.1) nc.2) ms.
Proof.
  cbn [registered_from]. f_equal.
  induction ms as [|[n x] ms IH]; [done|]. cbn [flat_map fst snd].
  by rewrite <- IH.
Qed.

Lemma named_modules_from_eq prefix i c b r a ms memo :
  named_modules_from prefix (mkModule i c b r a ms) memo
  = if decide (i ∈ memo) then ([], memo)
    else let '(below, memo') := named_modules_below prefix ms (i :: memo) in
         ((prefix, mkModule i c b r a ms) :: below, memo').
Proof.
  cbn [named_modules_from oid]. destruct (decide (i ∈ memo)) as [Hin|Hout]; [done|].
  generalize (i :: memo). intros memo0.
  match goal with
  | |- (let '(_, _) := ?walk ms memo0 in _) = _ =>
      assert (Hwalk : ∀ cs k, walk cs k = named_modules_below prefix cs k)
  end.
  { induction cs as [|[n x] cs IH]; intros k; [done|].
    cbn [named_modules_below]. destruct (named_modules_from _ x k) as [f k1].
    by rewrite IH. }
  by rewrite Hwalk.
Qed.

(** What the traversal with the memo yields is part of what is registered,
    in the same order. *)
Lemma named_modules_registered m : ∀ prefix memo,
  (named_modules_from prefix m memo).1 `sublist_of` registered_from prefix m.
Proof.
  induction m as [i c b r a ms IH] using Module_tree_ind. intros prefix memo.
  rewrite named_modules_from_eq, registered_from_eq.
  destruct (decide (i ∈ memo)) as [Hin|Hout]; [apply sublist_nil_l|].
  generalize (i :: memo). intros memo0.
  assert (Hbelow : ∀ k,
            (named_modules_below prefix ms k).1
            `sublist_of` flat_map (fun nc =>
                             registered_from (sub_prefix prefix nc.1) nc.2) ms).
  { clear -IH. induction ms as [|[n x] ms IHms]; intros k; [done|].
    apply Forall_cons in IH as [IHx IH]. cbn [named_modules_below flat_map].
    specialize (IHx (sub_prefix prefix n) k). cbn [fst snd] in *.
    destruct (named_modules_from (sub_prefix prefix n) x k) as [f k1].
    specialize (IHms IH k1).
    destruct (named_modules_below prefix ms k1) as [rest k2].
    cbn [fst] in *. by apply sublist_app. }
  specialize (Hbelow memo0).
  destruct (named_modules_below prefix ms memo0) as [below memo'].
  cbn [fst] in *. by constructor.
Qed.

Lemma paths_eq i c b r a ms :
  paths (mkModule i c b r a ms)
  = [] :: flat_map (fun nc => cons nc.1 <$> paths nc.2) ms.
Proof.
  cbn [paths]. f_equal.
  induction ms as [|[n x] ms IH]; [done|]. cbn [flat_map fst snd].
  by rewrite <- IH.
Qed.

Lemma well_formed_eq i c b r a ms :
  well_formed (mkModule i c b r a ms)
  ↔ NoDup ms.*1 ∧ Forall (fun nc => valid_name nc.1 ∧ well_formed nc.2) ms.
Proof.
  cbn [well_formed]. apply and_iff_compat_l.
  induction ms as [|[n x] ms IH]; [by split; [constructor|] |].
  rewrite Forall_cons, <- IH. cbn [fst snd]. tauto.
Qed.

Lemma append_cons c s t : String c s +:+ t = String c (s +:+ t).
Proof. reflexivity. Qed.

Lemma append_nil_inv s t : s +:+ t = "" → s = "".
Proof. by destruct s. Qed.

Lemma dotted_cons name rest :
  dotted (name :: rest)
  = name +:+ (match rest with [] => "" | _ :: _ => "." +:+ dotted rest end).
Proof. destruct rest; cbn [dotted]; [by rewrite app_empty_r | done]. Qed.

Lemma dotted_empty path :
  Forall (fun n => n ≠ "") path → dotted path = "" → path = [].
Proof.
  destruct path as [|n rest]; [done|]. intros [Hn _]%Forall_cons.
  rewrite dotted_cons. by intros ?%append_nil_inv.
Qed.

Lemma dotted_snoc path name :
  Forall (fun n => n ≠ "") path →
  dotted (path ++ [name]) = sub_prefix (dotted path) name.
Proof.
  unfold sub_prefix. induction path as [|a path IH]; intros Hp.
  - cbn. by rewrite decide_True.
  - apply Forall_cons in Hp as [Ha Hp].
    rewrite decide_False.
    2:{ intros Hd. by apply dotted_empty in Hd; [|by constructor]. }
    change ((a :: path) ++ [name]) with (a :: (path ++ [name])).
    rewrite (dotted_cons a (path ++ [name])), (dotted_cons a path).
    destruct path as [|b path].
    + cbn [app dotted]. by rewrite app_empty_r.
    + change ((b :: path) ++ [name]) with (b :: (path ++ [name])) in *.
      rewrite (IH Hp). rewrite decide_False.
      2:{ intros Hd. by apply dotted_empty in Hd. }
      by rewrite !append_assoc.
Qed.

Lemma append_nil_l s : "" +:+ s = s.
Proof. reflexivity. Qed.

(** Where two dot-free names end in a string that is cut at dots. *)
Lemma first_component a b x y :
  has_dot a = false → has_dot b = false →
  (x = "" ∨ ∃ x', x = String "."%char x') →
  (y = "" ∨ ∃ y', y = String "."%char y') →
  a +:+ x = b +:+ y → a = b ∧ x = y.
Proof.
  revert b. induction a as [|c a IH]; intros b Ha Hb Hx Hy Heq.
  - destruct b as [|c b]; [done|]. exfalso. cbn in Hb.
    apply orb_false_iff in Hb as [Hc _]. apply bool_decide_eq_false in Hc.
    rewrite append_nil_l, append_cons in Heq.
    destruct Hx as [->|[x' ->]]; [done|]. congruence.
  - cbn in Ha. apply orb_false_iff in Ha as [Hc Ha].
    apply bool_decide_eq_false in Hc.
    destruct b as [|c' b].
    + exfalso. rewrite append_nil_l, append_cons in Heq.
      destruct Hy as [->|[y' ->]]; [done|]. congruence.
    + cbn in Hb. apply orb_false_iff in Hb as [_ Hb].
      rewrite !append_cons in Heq. injection Heq as -> Heq.
      destruct (IH b Ha Hb Hx Hy Heq) as [-> ->]. done.
Qed.

Lemma dotted_inj p q :
  Forall valid_name p → Forall valid_name q → dotted p = dotted q → p = q.
Proof.
  revert q. induction p as [|a p IH]; intros q Hp Hq Heq.
  - symmetry. apply dotted_empty; [|done].
    eapply Forall_impl; [exact Hq|]. by intros ? [? _].
  - destruct q as [|b q].
    + apply dotted_empty in Heq; [done|].
      eapply Forall_impl; [exact Hp|]. by intros ? [? _].
    + apply Forall_cons in Hp as [[Ha Hda] Hp].
      apply Forall_cons in Hq as [[Hb Hdb] Hq].
      rewrite !dotted_cons in Heq.
      apply first_component in Heq as [-> Heq]; try done.
      * f_equal. destruct p as [|a' p], q as [|b' q]; try done.
        apply IH; try done.
        rewrite !append_cons, !append_nil_l in Heq. congruence.
      * destruct p; [by left | right]. rewrite append_cons, append_nil_l.
        eauto.
      * destruct q; [by left | right]. rewrite append_cons, append_nil_l.
        eauto.
Qed.

Lemma names_paths m :
  well_formed m →
  ∀ p, Forall valid_name p →
    (registered_from (dotted p) m).*1
    = (fun q => dotted (p ++ q)) <$> paths m.
Proof.
  induction m as [i c b r a ms IH] using Module_tree_ind.
  intros [_ Hwf]%well_formed_eq p Hp.
  rewrite registered_from_eq, paths_eq. cbn [fmap list_fmap fst].
  rewrite app_nil_r. f_equal. clear i c b r a.
  revert IH Hwf. induction ms as [|[n x] ms IHms]; intros IH Hwf; [done|].
  apply Forall_cons in IH as [IHx IH]. apply Forall_cons in Hwf as [[Hn Hx] Hwf].
  cbn [flat_map fst snd] in *. rewrite !fmap_app, (IHms IH Hwf). f_equal.
  rewrite <- dotted_snoc
    by (eapply Forall_impl; [exact Hp|]; by intros ? [? _]).
  rewrite (IHx Hx (p ++ [n])) by (apply Forall_app; split; [done|by constructor]).
  rewrite <- list_fmap_compose. apply list_fmap_ext. intros _ q _. cbn.
  by rewrite <- app_assoc.
Qed.

Lemma paths_valid m :
  well_formed m → Forall (Forall valid_name) (paths m).
Proof.
  induction m as [i c b r a ms IH] using Module_tree_ind.
  intros [_ Hwf]%well_formed_eq. rewrite paths_eq.
  constructor; [constructor|]. clear i c b r a.
  revert IH Hwf. induction ms as [|[n x] ms IHms]; intros IH Hwf; [constructor|].
  apply Forall_cons in IH as [IHx IH]. apply Forall_cons in Hwf as [[Hn Hx] Hwf].
  cbn [flat_map fst snd] in *. apply Forall_app. split; [|by apply IHms].
  apply Forall_fmap. eapply Forall_impl; [exact (IHx Hx)|].
  intros q Hq. by constructor.
Qed.

Lemma paths_NoDup m : well_formed m → NoDup (paths m).
Proof.
  induction m as [i c b r a ms IH] using Module_tree_ind.
  intros [Hnd Hwf]%well_formed_eq. rewrite paths_eq.
  apply NoDup_cons. split.
  - intros (nc & _ & (q & Hq & _)%list_elem_of_In%list_elem_of_fmap)
             %list_elem_of_In%in_flat_map.
    discriminate Hq.
  - clear i c b r a. revert IH Hwf Hnd.
    induction ms as [|[n x] ms IHms]; intros IH Hwf Hnd; [constructor|].
    apply Forall_cons in IH as [IHx IH].
    apply Forall_cons in Hwf as [[Hn Hx] Hwf].
    cbn [fmap list_fmap fst] in Hnd. apply NoDup_cons in Hnd as [Hfresh Hnd].
    cbn [flat_map fst snd] in *. apply NoDup_app. split_and!.
    + apply (NoDup_fmap_2 _). by apply IHx.
    + intros q (q1 & -> & _)%list_elem_of_fmap
        (nc & Hnc & (q2 & Hq2 & _)%list_elem_of_In%list_elem_of_fmap)
          %list_elem_of_In%in_flat_map.
      injection Hq2 as Hn1 _. apply Hfresh. rewrite Hn1.
      apply list_elem_of_fmap_2. by apply list_elem_of_In.
    + by apply IHms.
Qed.

End TreeFacts.

(** In a well-formed module tree no two sub-modules have the same dotted
    name, shared instances or not, so the uniqueness the classifier theorems
    ask for holds. *)
Lemma named_modules_NoDup (m : Module) :
  well_formed m → NoDup (named_modules m).*1.
Proof.
  intros Hwf. unfold named_modules.
  apply (sublist_NoDup _ (registered_from "" m).*1).
  - change "" with (dotted []). rewrite (names_paths m Hwf []) by constructor.
    apply NoDup_fmap_2_strong; [|by apply paths_NoDup].
    pose proof (paths_valid m Hwf) as Hv. rewrite Forall_forall in Hv.
    intros p q Hp Hq. cbn [app]. apply dotted_inj; by apply Hv.
  - apply fmap_sublist. apply named_modules_registered.
Qed.

Example sample_block_well_formed : well_formed Sample.block.
Proof.
  vm_compute.
  repeat split;
    try (repeat constructor; rewrite ?elem_of_cons, ?elem_of_nil;
         intuition discriminate);
    discriminate.
Qed.

(** * Further properties *)

(** ** The uniform mapper outside and at the edge of its domain *)

Lemma for_each_unchanged {A S} (xs : list A) (body : A → S → result S) (s : S) :
  (∀ x, body x s = Ok s) → for_each xs body s = Ok s.
Proof.
  intros Hbody. induction xs as [|x xs IH]; cbn [for_each]; [done|].
  by rewrite Hbody.
Qed.

Lemma range_nonpositive n : n ≤ 0 → range n = [].
Proof. intros Hn. unfold range. by replace (Z.to_nat n) with 0%nat by lia. Qed.

Lemma range_positive n : 0 < n → ∃ rest, range n = 0 :: rest.
Proof.
  intros Hn. unfold range. destruct (Z.to_nat n) as [|k] eqn:Hk; [lia|].
  cbn. eauto.
Qed.

(** X1. With a negative layer count the constructor of the uniform mapper
    divides by zero when there is no device, returns the empty table when
    the number of devices divides the count, and otherwise fails with an
    index error on its first write. *)
Theorem uniform_init_negative (devices : list Z) (L : Z) :
  L < 0 →
  Uniform.__init__ devices L
  = match devices with
    | [] => Raise ZeroDivisionError
    | _ :: _ =>
        if decide (L mod Z.of_nat (length devices) = 0) then Ok []
        else Raise IndexError
    end.
Proof.
  intros HL. destruct devices as [|d devices]; [done|].
  set (D := Z.of_nat (length (d :: devices))).
  assert (HD : 0 < D) by (unfold D; cbn [length]; lia).
  assert (Hbase : L / D < 0).
  { apply Z.div_lt_upper_bound; [exact HD | by rewrite Z.mul_0_r]. }
  pose proof (Z.mod_pos_bound L D HD) as Hmod.
  unfold Uniform.__init__, floordiv. fold D.
  rewrite decide_False by lia. cbn [rbind].
  replace (L - L / D * D) with (L mod D)
    by (pose proof (Z.div_mod L D); lia).
  unfold list_repeat. replace (Z.to_nat L) with 0%nat by lia.
  cbn [replicate].
  destruct (decide (L mod D = 0)) as [H0|H0].
  - rewrite for_each_unchanged; [done|].
    intros x. unfold Uniform.dev_body.
    rewrite range_nonpositive by lia. cbn [for_each rbind Uniform.remainder].
    by rewrite decide_False by lia.
  - destruct (range_positive D HD) as [rest ->]. cbn [for_each].
    unfold Uniform.dev_body at 1.
    rewrite range_nonpositive by lia. cbn [for_each rbind Uniform.remainder].
    rewrite decide_True by lia. reflexivity.
Qed.

Lemma uniform_init_negative_witness :
  Uniform.__init__ [0; 1] (-3) = Raise IndexError
  ∧ Uniform.__init__ [0; 1] (-4) = Ok [].
Proof.
  split.
  - exact (uniform_init_negative [0; 1] (-3) ltac:(lia)).
  - exact (uniform_init_negative [0; 1] (-4) ltac:(lia)).
Defined.

(** ** The table of the uniform mapper, entry by entry *)

Section TableFacts.
Import Uniform.

Lemma offset_shift f k : offset f (S k) = (f 0 + offset (f ∘ S) k)%nat.
Proof.
  induction k as [|k IH]; [cbn; lia|].
  change (offset f (S (S k))) with (offset f (S k) + f (S k))%nat.
  rewrite IH. cbn. lia.
Qed.

Lemma lookup_written (f : nat → nat) (l : list Z) : ∀ k d n,
  l !! k = Some d → (n < f k)%nat →
  concat (imap (fun j x => replicate (f j) x) l) !! (offset f k + n)%nat
  = Some d.
Proof.
  revert f. induction l as [|x l IH]; intros f k d n Hk Hn; [done|].
  cbn [imap concat]. destruct k as [|k].
  - cbn in Hk. injection Hk as ->. cbn [offset Nat.add].
    rewrite lookup_app_l by (by rewrite length_replicate).
    by apply lookup_replicate_2.
  - cbn in Hk. rewrite offset_shift.
    rewrite lookup_app_r by (rewrite length_replicate; lia).
    rewrite length_replicate.
    replace (f 0 + offset (f ∘ S) k + n - f 0)%nat
      with (offset (f ∘ S) k + n)%nat by lia.
    exact (IH (f ∘ S) k d n Hk Hn).
Qed.

Lemma offset_share L D k :
  0 ≤ L → 0 < D →
  Z.of_nat (offset (share L D) k)
  = Z.of_nat k * (L / D) + Z.min (Z.of_nat k) (L mod D).
Proof.
  intros HL HD. assert (0 ≤ L / D) by (apply Z.div_pos; lia).
  pose proof (Z.mod_pos_bound L D HD).
  induction k as [|k IH]; [cbn; lia|].
  cbn [offset]. rewrite Nat2Z.inj_add, IH. unfold share.
  destruct (decide _); lia.
Qed.

Lemma written_present (f : nat → nat) (l : list Z) k d :
  l !! k = Some d → (0 < f k)%nat →
  d ∈ concat (imap (fun j x => replicate (f j) x) l).
Proof.
  intros Hk Hf. apply list_elem_of_lookup.
  exists (offset f k + 0)%nat. by apply lookup_written.
Qed.

Lemma written_take (l : list Z) : ∀ n,
  concat (imap (fun j x =>
                  replicate (if decide (j < n)%nat then 1 else 0)%nat x) l)
  = take n l.
Proof.
  induction l as [|x l IH]; intros n; [by destruct n|].
  cbn [imap concat]. destruct n as [|n].
  - rewrite decide_False by lia. cbn [replicate app take].
    transitivity
      (concat (imap (fun j x =>
                       replicate (if decide (j < 0)%nat then 1 else 0)%nat x)
                 l)); [|by rewrite IH, take_0].
    reflexivity.
  - rewrite decide_True by lia. cbn [replicate app take]. f_equal.
    rewrite <- (IH n). f_equal. apply imap_ext. intros j y _. unfold compose.
    destruct (decide (j < n)%nat).
    + by rewrite decide_True by lia.
    + by rewrite decide_False by lia.
Qed.

End TableFacts.

(** X2. With no more layers than devices the table is the first L devices
    of the list, one layer each; the devices after them get no layer. *)
Theorem uniform_init_few_layers (devices : list Z) (L : Z) :
  (1 ≤ length devices)%nat → 0 ≤ L ≤ Z.of_nat (length devices) →
  Uniform.__init__ devices L = Ok (take (Z.to_nat L) devices).
Proof.
  intros HD HL. destruct (init_blocks devices L HD) as [-> _]; [lia|].
  f_equal. unfold Uniform.blocks. rewrite <- written_take. f_equal.
  apply imap_ext. intros j x Hj%lookup_lt_Some. cbn. f_equal.
  unfold Uniform.share. set (D := Z.of_nat (length devices)) in *.
  destruct (decide (L = D)) as [->|Hne].
  - rewrite Z_div_same_full, Z_mod_same_full by lia.
    rewrite decide_False by lia. rewrite decide_True by lia. lia.
  - rewrite Z.div_small, Z.mod_small by lia.
    destruct (decide (Z.of_nat j < L)).
    + rewrite decide_True by lia. lia.
    + rewrite decide_False by lia. lia.
Qed.

Lemma uniform_init_few_layers_witness :
  Uniform.__init__ [4; 5; 6; 7] 2 = Ok [4; 5].
Proof.
  exact (uniform_init_few_layers [4; 5; 6; 7] 2 ltac:(cbn; lia)
           ltac:(cbn; lia)).
Defined.

(** X3. With at least as many layers as devices every device of the list
    is the device of some layer. *)
Theorem uniform_init_covers_devices (devices : list Z) (L : Z) (d : Z) :
  (1 ≤ length devices)%nat → Z.of_nat (length devices) ≤ L →
  d ∈ devices →
  ∃ table, Uniform.__init__ devices L = Ok table ∧ d ∈ table.
Proof.
  intros HD HL Hd. destruct (init_blocks devices L HD) as [-> _]; [lia|].
  eexists. split; [done|].
  apply list_elem_of_lookup in Hd as [k Hk]. unfold Uniform.blocks.
  apply (written_present _ _ k); [done|]. unfold Uniform.share.
  assert (1 ≤ L / Z.of_nat (length devices))
    by (apply Z.div_le_lower_bound; lia).
  destruct (decide _); lia.
Qed.

Lemma uniform_init_covers_devices_witness :
  ∃ table, Uniform.__init__ [4; 5; 6] 7 = Ok table ∧ 6 ∈ table.
Proof.
  apply (uniform_init_covers_devices [4; 5; 6] 7 6);
    [cbn; lia | cbn; lia | in_list].
Defined.

(** X4. Which device a layer lives on: for a layer n of a table built for
    L layers on D devices, it is the device at position n / (b+1) of the
    list while n is below r * (b+1), and at position r + (n - r*(b+1)) / b
    from there on, where b = L / D and r = L mod D. *)
Theorem uniform_layer_device (devices : list Z) (L n : Z) :
  (1 ≤ length devices)%nat → 0 ≤ n < L →
  ∃ table d,
    Uniform.__init__ devices L = Ok table
    ∧ getitem table n = Ok d
    ∧ getitem devices
        (UniformPlacement.position L (Z.of_nat (length devices)) n)
      = Ok d.
Proof.
  intros HD Hn. destruct (init_blocks devices L HD) as [Hinit Hlen]; [lia|].
  set (D := Z.of_nat (length devices)) in *.
  assert (HD' : 0 < D) by (unfold D; lia).
  pose proof (Z.div_mod L D ltac:(lia)) as Hdm.
  pose proof (Z.mod_pos_bound L D HD') as Hr.
  assert (Hb : 0 ≤ L / D) by (apply Z.div_pos; lia).
  set (b := L / D) in *. set (r := L mod D) in *.
  set (k := UniformPlacement.position L D n).
  assert (Hk : 0 ≤ k < D
               ∧ Z.of_nat (offset (Uniform.share L D) (Z.to_nat k)) ≤ n
               ∧ n < Z.of_nat (offset (Uniform.share L D) (Z.to_nat k))
                     + Z.of_nat (Uniform.share L D (Z.to_nat k))).
  { unfold k, UniformPlacement.position. fold b r.
    destruct (decide (n < r * (b + 1))) as [Hlo|Hhi].
    - pose proof (Z.div_mod n (b + 1) ltac:(lia)) as Hq.
      pose proof (Z.mod_pos_bound n (b + 1) ltac:(lia)) as Hm.
      set (q := n / (b + 1)) in *.
      assert (0 ≤ q) by (apply Z.div_pos; lia).
      assert (q < r) by (apply Z.div_lt_upper_bound; lia).
      rewrite offset_share by lia. unfold Uniform.share. fold b r.
      rewrite !Z2Nat.id by lia. rewrite decide_True by lia. nia.
    - assert (0 < b) by nia.
      set (m := n - r * (b + 1)) in *.
      pose proof (Z.div_mod m b ltac:(lia)) as Hq.
      pose proof (Z.mod_pos_bound m b ltac:(lia)) as Hm.
      set (q := m / b) in *.
      assert (0 ≤ q) by (apply Z.div_pos; lia).
      assert (q < D - r) by (apply Z.div_lt_upper_bound; nia).
      rewrite offset_share by lia. unfold Uniform.share. fold b r.
      rewrite !Z2Nat.id by lia. rewrite decide_False by lia. nia. }
  destruct Hk as (Hk & Hlo & Hhi).
  destruct (lookup_lt_is_Some_2 devices (Z.to_nat k)) as [d Hd];
    [unfold D in Hk; lia|].
  exists (Uniform.blocks devices L), d. split_and!; [done| |].
  - unfold getitem, norm_index. rewrite Hlen.
    rewrite decide_True by lia.
    pose proof (lookup_written (Uniform.share L D) devices (Z.to_nat k) d
                  (Z.to_nat n - offset (Uniform.share L D) (Z.to_nat k))
                  Hd ltac:(lia)) as Hl.
    replace (offset (Uniform.share L D) (Z.to_nat k)
             + (Z.to_nat n - offset (Uniform.share L D) (Z.to_nat k)))%nat
      with (Z.to_nat n) in Hl by lia.
    unfold Uniform.blocks. fold D. by rewrite Hl.
  - unfold getitem, norm_index. fold D k. rewrite decide_True by lia.
    by rewrite Hd.
Qed.

Lemma uniform_layer_device_witness :
  ∃ table d,
    Uniform.__init__ [10; 11; 12] 8 = Ok table
    ∧ getitem table 6 = Ok d
    ∧ getitem [10; 11; 12] (UniformPlacement.position 8 3 6) = Ok d.
Proof.
  exact (uniform_layer_device [10; 11; 12] 8 6 ltac:(cbn; lia) ltac:(lia)).
Defined.

Example position_3_8 :
  UniformPlacement.position 8 3 <$> [0; 1; 2; 3; 4; 5; 6; 7]
  = [0; 0; 0; 1; 1; 1; 2; 2].
Proof. reflexivity. Qed.

(** ** Placement by the uniform strategy *)

Lemma getitem_index {A} (l : list A) (i : Z) :
  getitem l i
  = if decide (- Z.of_nat (length l) ≤ i < Z.of_nat (length l)) then
      match l !! Z.to_nat (if decide (i < 0) then Z.of_nat (length l) + i
                           else i) with
      | Some x => Ok x
      | None => Raise IndexError
      end
    else Raise IndexError.
Proof.
  unfold getitem, norm_index.
  destruct (decide (0 ≤ i < Z.of_nat (length l))).
  - rewrite decide_True by lia. by rewrite (decide_False (P := i < 0)) by lia.
  - destruct (decide (- Z.of_nat (length l) ≤ i < 0)).
    + rewrite decide_True by lia. by rewrite (decide_True (P := i < 0)) by lia.
    + by rewrite decide_False by lia.
Qed.

Lemma new_table (devices : list Z) (L : Z) (from_meta : bool) :
  (1 ≤ length devices)%nat → 0 ≤ L →
  UniformPlacement.new devices L from_meta
  = Ok (UniformPlacement.mk from_meta (Uniform.blocks devices L))
  ∧ length (Uniform.blocks devices L) = Z.to_nat L.
Proof.
  intros HD HL. destruct (init_blocks devices L HD HL) as [Hinit Hlen].
  unfold UniformPlacement.new. by rewrite Hinit.
Qed.

(** X5. A strategy built for L layers places a layer exactly when its
    index lies in [-L, L): a negative index counts from the last layer, any
    other index is an index error. The result is always a device mover
    around the block, on a device of the list, and the block is
    materialized first exactly when the strategy is built from meta. *)
Theorem uniform_distribute_layer (R : UniformPlacement.Relocation)
    (devices : list Z) (L : Z) (from_meta : bool) (block : Module)
    (layer : Z) :
  (1 ≤ length devices)%nat → 0 ≤ L →
  ∃ self,
    UniformPlacement.new devices L from_meta = Ok self
    ∧ if decide (- L ≤ layer < L) then
        ∃ d, d ∈ devices
             ∧ UniformPlacement.layer_to_device self
                 !! Z.to_nat (if decide (layer < 0) then L + layer else layer)
               = Some d
             ∧ UniformPlacement._distribute_layer R self block layer
               = Ok (UniformPlacement.Mover
                       (UniformPlacement.to R
                          (if from_meta
                           then UniformPlacement.to_empty R block d
                           else block) d) d)
      else UniformPlacement._distribute_layer R self block layer
           = Raise IndexError.
Proof.
  intros HD HL. destruct (new_table devices L from_meta HD HL) as [Hnew Hlen].
  eexists. split; [exact Hnew|].
  unfold UniformPlacement._distribute_layer.
  cbn [UniformPlacement.layer_to_device UniformPlacement.from_meta].
  rewrite getitem_index, Hlen, Z2Nat.id by lia.
  destruct (decide (- L ≤ layer < L)) as [Hin|Hout]; [|done].
  destruct (lookup_lt_is_Some_2 (Uniform.blocks devices L)
              (Z.to_nat (if decide (layer < 0) then L + layer else layer)))
    as [d Hd].
  { rewrite Hlen. destruct (decide (layer < 0)); lia. }
  exists d. rewrite Hd. split_and!; [|done|done].
  eapply elem_of_written. apply list_elem_of_lookup. eexists. exact Hd.
Qed.

Lemma uniform_distribute_layer_witness :
  ∃ self,
    UniformPlacement.new [10; 11; 12] 8 true = Ok self
    ∧ ∃ d, d ∈ [10; 11; 12]
           ∧ UniformPlacement.layer_to_device self !! 7%nat = Some d
           ∧ UniformPlacement._distribute_layer Sample.relocation self
               Sample.block (-1)
             = Ok (UniformPlacement.Mover
                     (UniformPlacement.to Sample.relocation
                        (UniformPlacement.to_empty Sample.relocation
                           Sample.block d) d) d).
Proof.
  exact (uniform_distribute_layer Sample.relocation [10; 11; 12] 8 true
           Sample.block (-1) ltac:(cbn; lia) ltac:(lia)).
Defined.

(** X6. A strategy built for no layer cannot place a module: both lookups
    are index errors. Built for at least one layer, it places the modules
    before the layers on the first device of the list and the final modules
    on the device at position min(L, D) - 1, the last one that has a layer.
    Built from meta it returns the materialized module itself, otherwise a
    device mover around it. *)
Theorem uniform_distribute_module (R : UniformPlacement.Relocation)
    (devices : list Z) (L : Z) (from_meta : bool) (module : Module)
    (final_layers : bool) :
  (1 ≤ length devices)%nat → 0 ≤ L →
  ∃ self,
    UniformPlacement.new devices L from_meta = Ok self
    ∧ if decide (L = 0) then
        UniformPlacement._distribute_module R self module final_layers
        = Raise IndexError
      else
        ∃ d,
          devices !! (if final_layers
                      then Z.to_nat (Z.min L (Z.of_nat (length devices)) - 1)
                      else 0%nat) = Some d
          ∧ UniformPlacement._distribute_module R self module final_layers
            = Ok (if from_meta
                  then UniformPlacement.Plain
                         (UniformPlacement.to_empty R module d)
                  else UniformPlacement.Mover
                         (UniformPlacement.to R module d) d).
Proof.
  intros HD HL. destruct (new_table devices L from_meta HD HL) as [Hnew Hlen].
  eexists. split; [exact Hnew|].
  unfold UniformPlacement._distribute_module.
  cbn [UniformPlacement.layer_to_device UniformPlacement.from_meta].
  rewrite !getitem_index, Hlen, Z2Nat.id by lia.
  destruct (decide (L = 0)) as [->|HL0].
  { by destruct final_layers. }
  set (D := Z.of_nat (length devices)) in *.
  assert (HD' : 0 < D) by (unfold D; lia).
  pose proof (Z.div_mod L D ltac:(lia)) as Hdm.
  pose proof (Z.mod_pos_bound L D HD') as Hr.
  assert (Hb : 0 ≤ L / D) by (apply Z.div_pos; lia).
  set (k := if final_layers then Z.to_nat (Z.min L D - 1) else 0%nat).
  set (n := if final_layers then Z.to_nat (L - 1) else 0%nat).
  destruct (lookup_lt_is_Some_2 devices k) as [d Hd].
  { unfold k, D in *. destruct final_layers; lia. }
  assert (Hn : Uniform.blocks devices L !! n = Some d).
  { pose proof (offset_share L D k HL HD') as Hoff.
    pose proof (lookup_written (Uniform.share L D) devices k d
                  (n - offset (Uniform.share L D) k) Hd) as Hl.
    assert (Hsh : Z.of_nat (Uniform.share L D k)
                  = L / D + (if decide (Z.of_nat k < L mod D) then 1 else 0)).
    { unfold Uniform.share. destruct (decide _); lia. }
    assert (Z.of_nat (offset (Uniform.share L D) k) ≤ Z.of_nat n
            < Z.of_nat (offset (Uniform.share L D) k)
              + Z.of_nat (Uniform.share L D k)) as Hrange.
    { rewrite Hoff, Hsh. unfold k, n.
      destruct final_layers.
      - destruct (decide (L < D)).
        + rewrite Z.div_small, Z.mod_small in * by lia.
          rewrite decide_True by lia. lia.
        + assert (1 ≤ L / D) by (apply Z.div_le_lower_bound; lia).
          rewrite decide_False by lia. nia.
      - destruct (decide _); [lia|].
        assert (L mod D = 0) by lia. nia. }
    replace (offset (Uniform.share L D) k
             + (n - offset (Uniform.share L D) k))%nat with n in Hl by lia.
    unfold Uniform.blocks. fold D. apply Hl. lia. }
  exists d. split; [done|].
  destruct final_layers.
  - rewrite decide_True by lia. rewrite decide_False by lia.
    unfold n in Hn. rewrite Hn. cbn [rbind]. by destruct from_meta.
  - rewrite decide_True by lia. rewrite decide_False by lia.
    unfold n in Hn. change (Z.to_nat 0) with 0%nat. rewrite Hn.
    cbn [rbind]. by destruct from_meta.
Qed.

Lemma uniform_distribute_module_witness :
  ∃ self,
    UniformPlacement.new [10; 11; 12] 2 false = Ok self
    ∧ ∃ d,
        [10; 11; 12] !! 1%nat = Some d
        ∧ UniformPlacement._distribute_module Sample.relocation self
            Sample.block true
          = Ok (UniformPlacement.Mover
                  (UniformPlacement.to Sample.relocation Sample.block d) d).
Proof.
  exact (uniform_distribute_module Sample.relocation [10; 11; 12] 2 false
           Sample.block true ltac:(cbn; lia) ltac:(lia)).
Defined.

(** ** The gate and the ignore list *)

(** X7. Under the no-op strategy both entry points hand back the module
    they were given, whether or not its type is on the ignore list; the
    only trace an ignored type leaves is the notice. *)
Theorem noop_returns_its_input (P : Process) (from_meta : bool)
    (module : Module) (final_layers : bool) (layer : Z)
    (model : option string) :
  distribute_module P (NotDistributed from_meta) module final_layers model
  = (if __should_distribute P (type_name module) then []
     else [Print ("ignoring module=" +:+ type_name module
                  +:+ " when distributing module")],
     Ok (Some module))
  ∧ distribute_layer P (NotDistributed from_meta) module layer model
    = (if __should_distribute P (type_name module) then []
       else [Print ("ignoring block=" +:+ type_name module
                    +:+ " when distributing layer")],
       Ok (Some module)).
Proof.
  unfold distribute_module, distribute_layer.
  by destruct (__should_distribute P (type_name module)).
Qed.

Lemma split_nonempty sep s : split sep s ≠ [].
Proof.
  destruct s as [|c s]; cbn [split]; [done|].
  destruct (decide (c = sep)); [done|]. by destruct (split sep s).
Qed.

Lemma split_without sep s : contains sep s = false → split sep s = [s].
Proof.
  induction s as [|c s IH]; cbn [split contains]; [done|].
  intros [Hc Hs]%orb_false_iff. apply bool_decide_eq_false in Hc.
  rewrite decide_False by done. by rewrite IH.
Qed.

Lemma split_field sep s t :
  contains sep s = false →
  split sep (s +:+ String sep t) = s :: split sep t.
Proof.
  induction s as [|c s IH]; intros Hs.
  - rewrite append_nil_l. cbn [split]. by rewrite decide_True.
  - cbn [contains] in Hs. apply orb_false_iff in Hs as [Hc Hs].
    apply bool_decide_eq_false in Hc.
    rewrite append_cons. cbn [split]. rewrite decide_False by done.
    by rewrite IH.
Qed.

Lemma split_join sep names :
  names ≠ [] → Forall (fun n => contains sep n = false) names →
  split sep (join (String sep "") names) = names.
Proof.
  induction names as [|n names IH]; [done|]. intros _ [Hn Hrest]%Forall_cons.
  destruct names as [|n' names].
  - cbn [join]. by apply split_without.
  - change (join (String sep "") (n :: n' :: names))
      with (n +:+ String sep "" +:+ join (String sep "") (n' :: names)).
    rewrite append_cons, append_nil_l, split_field by done.
    by rewrite IH.
Qed.

(** X8. When the environment variable holds one or more type names joined
    by commas, no name having a comma inside, the ignore list is exactly
    that list of names, so a module is held back from its strategy exactly
    when its type name is one of them. *)
Theorem ignore_list_of_joined_names (P : Process) (names : list string)
    (self : DistributedStrategy) (module : Module) (final_layers : bool)
    (model : option string) :
  names ≠ [] →
  Forall (fun n => contains "," n = false) names →
  Dict.get "DISTRIBUTED_STRATEGY_IGNORE_MODULES" (environ P)
  = Some (join "," names) →
  _distributed_strategy_ignore_modules P = names
  ∧ distribute_module P self module final_layers model
    = if bool_decide (type_name module ∈ names)
      then ([Print ("ignoring module=" +:+ type_name module
                    +:+ " when distributing module")],
            Ok (Some module))
      else _distribute_module self module final_layers model.
Proof.
  intros Hne Hnames Henv.
  assert (Hlist : _distributed_strategy_ignore_modules P = names).
  { unfold _distributed_strategy_ignore_modules. rewrite Henv.
    by apply (split_join ","%char). }
  split; [done|].
  unfold distribute_module, __should_distribute. rewrite Hlist.
  destruct (decide (type_name module ∈ names)) as [Hin|Hout].
  - rewrite bool_decide_eq_false_2 by (intros Hn; by apply Hn).
    by rewrite bool_decide_eq_true_2.
  - rewrite bool_decide_eq_true_2 by done.
    by rewrite bool_decide_eq_false_2.
Qed.

Lemma ignore_list_of_joined_names_witness :
  _distributed_strategy_ignore_modules Sample.process
  = ["LLaMABlock"; "Dropout"]
  ∧ distribute_module Sample.process Sample.failing Sample.attn false None
    = if bool_decide (type_name Sample.attn ∈ ["LLaMABlock"; "Dropout"])
      then ([Print ("ignoring module=" +:+ type_name Sample.attn
                    +:+ " when distributing module")],
            Ok (Some Sample.attn))
      else _distribute_module Sample.failing Sample.attn false None.
Proof.
  apply (ignore_list_of_joined_names Sample.process ["LLaMABlock"; "Dropout"]
           Sample.failing Sample.attn false None).
  - discriminate.
  - by repeat constructor.
  - reflexivity.
Defined.

(** An empty value does not give an empty ignore list: it gives the list
    holding the empty name. *)
Example ignore_list_of_empty_value :
  _distributed_strategy_ignore_modules
    (mkProcess [("DISTRIBUTED_STRATEGY_IGNORE_MODULES", "")] false false 1 0)
  = [""].
Proof. reflexivity. Qed.

(** ** The plan as a whole *)

Section PlanFacts.
Context {V : Type}.
Implicit Types (d : Dict.t V) (k : string) (v : V).

Lemma set_last k v v' d :
  k ∉ Dict.keys d → Dict.set k v (d ++ [(k, v')]) = d ++ [(k, v)].
Proof.
  unfold Dict.keys. induction d as [|[k0 v0] d IH]; cbn.
  - intros _. by rewrite decide_True.
  - intros [Hne Hk]%not_elem_of_cons. rewrite decide_False by done.
    by rewrite IH.
Qed.

Lemma keys_set k v d :
  Dict.keys (Dict.set k v d)
  = if decide (k ∈ Dict.keys d) then Dict.keys d else Dict.keys d ++ [k].
Proof.
  destruct (decide (k ∈ Dict.keys d)) as [Hin|Hout].
  - unfold Dict.keys in *. induction d as [|[k0 v0] d IH]; cbn in *.
    + by apply elem_of_nil in Hin.
    + destruct (decide (k = k0)) as [->|Hne]; [done|]. cbn. f_equal.
      apply IH. by apply elem_of_cons in Hin as [?|?].
  - rewrite set_fresh by done. unfold Dict.keys. by rewrite fmap_app.
Qed.

Lemma wf_set k v d : Dict.wf d → Dict.wf (Dict.set k v d).
Proof.
  unfold Dict.wf. rewrite keys_set. destruct (decide _) as [Hin|Hout]; [done|].
  intros Hnd. apply NoDup_app. split_and!; [done| |apply NoDup_singleton].
  intros x Hx ->%list_elem_of_singleton. done.
Qed.

Lemma elem_of_set k v d (kv : string * V) :
  kv ∈ Dict.set k v d → kv = (k, v) ∨ kv ∈ d.
Proof.
  induction d as [|[k0 v0] d IH]; cbn.
  - intros ->%list_elem_of_singleton. by left.
  - destruct (decide (k = k0)) as [->|Hne].
    + intros [->|Hin]%elem_of_cons; [by left|]. right. by right.
    + intros [->|Hin]%elem_of_cons; [right; left|].
      destruct (IH Hin) as [->|?]; [by left|]. right. by right.
Qed.

End PlanFacts.

Lemma plan_step_fresh colwise rowwise usp (plan : Dict.t ParallelStyle)
    (nm : string * Module) :
  nm.1 ∉ Dict.keys plan →
  plan_step colwise rowwise usp plan nm
  = plan ++ match kind_of colwise rowwise usp nm with
            | Some style => [(nm.1, style)]
            | None => []
            end.
Proof.
  intros Hk. unfold plan_step, kind_of. fold (is_norm_or_dropout nm.2).
  destruct (usp && is_norm_or_dropout nm.2); [by apply set_fresh|].
  destruct (isinstance nm.2 nn_Linear); [|by rewrite app_nil_r].
  rewrite !scan_any. unfold after_scans.
  destruct (Re.any_match rowwise nm.1), (Re.any_match colwise nm.1).
  - rewrite (set_fresh nm.1 (ColwiseParallel None)) by done.
    by apply set_last.
  - by apply set_fresh.
  - by apply set_fresh.
  - by rewrite app_nil_r.
Qed.

Lemma foldl_plan_step colwise rowwise usp mods : ∀ plan,
  NoDup mods.*1 →
  (∀ k, k ∈ Dict.keys plan → k ∉ mods.*1) →
  foldl (plan_step colwise rowwise usp) plan mods
  = plan ++ omap (fun nm => pair nm.1 <$> kind_of colwise rowwise usp nm) mods.
Proof.
  induction mods as [|nm mods IH]; intros plan Hnd Hkeys;
    cbn [foldl omap list_omap]; [by rewrite app_nil_r|].
  cbn [fmap list_fmap] in Hnd. apply NoDup_cons in Hnd as [Hfresh Hnd].
  rewrite plan_step_fresh.
  2:{ intros Hin. apply (Hkeys _ Hin). left. }
  rewrite IH; [| done |].
  - destruct (kind_of colwise rowwise usp nm); cbn [fmap option_fmap option_map].
    + by rewrite <- app_assoc.
    + by rewrite app_nil_r.
  - intros k Hk. unfold Dict.keys in Hk. rewrite fmap_app in Hk.
    apply elem_of_app in Hk as [Hk|Hk].
    + specialize (Hkeys k Hk). cbn [fmap list_fmap] in Hkeys.
      by apply not_elem_of_cons in Hkeys as [_ ?].
    + destruct (kind_of colwise rowwise usp nm); cbn in Hk.
      * apply list_elem_of_singleton in Hk as ->. done.
      * by apply elem_of_nil in Hk.
Qed.

(** X9. In a block whose traversal yields no name twice the plan lists, in
    the order of the traversal, exactly the sub-modules it yields (an
    instance registered under several names once) that get a kind:
    sequence-parallel for a normalization or dropout when the flag is on;
    otherwise, for a linear sub-module, row-sharded when a row-wise pattern
    matches its name, else column-sharded when a column-wise pattern does;
    nothing for any other sub-module. *)
Theorem plan_lists_kinds_in_order (block : Module)
    (use_sequence_parallelism : bool) :
  NoDup (named_modules block).*1 →
  ∃ tr,
    generate_layer_plan block use_sequence_parallelism
    = (tr,
       Ok (omap (fun nm =>
                   pair nm.1
                   <$> kind_of colwise_patterns rowwise_patterns
                         use_sequence_parallelism nm)
             (named_modules block))).
Proof.
  intros Hnd.
  destruct (generate_ok colwise_patterns rowwise_patterns
              use_sequence_parallelism block) as [tr Htr].
  exists tr. unfold generate_layer_plan. rewrite Htr. do 2 f_equal.
  rewrite foldl_plan_step; [done|done|].
  intros k Hk. by apply elem_of_nil in Hk.
Qed.

Lemma plan_lists_kinds_in_order_witness :
  ∃ tr,
    generate_layer_plan Sample.block true
    = (tr,
       Ok (omap (fun nm =>
                   pair nm.1
                   <$> kind_of colwise_patterns rowwise_patterns true nm)
             (named_modules Sample.block))).
Proof.
  apply (plan_lists_kinds_in_order Sample.block true).
  vm_compute. repeat constructor; rewrite ?elem_of_cons, ?elem_of_nil;
    intuition discriminate.
Defined.

Lemma foldl_invariant {A B} (I : A → Prop) (f : A → B → A) (l : list B) :
  (∀ a x, x ∈ l → I a → I (f a x)) → ∀ a, I a → I (foldl f a l).
Proof.
  induction l as [|x l IH]; intros Hstep a Ha; cbn [foldl]; [done|].
  apply IH.
  - intros a' y Hy. apply Hstep. by right.
  - apply Hstep; [left | done].
Qed.

(** X10. Whatever the block, also with repeated names, the classifier
    returns a plan without exception; no name occurs twice in it; every
    name in it is the name of a sub-module of the block; and every kind in
    it is column-sharded or row-sharded with default layouts, or, only when
    the flag is on, sequence-parallel. *)
Theorem plan_is_well_formed (block : Module)
    (use_sequence_parallelism : bool) :
  ∃ tr tp_plan,
    generate_layer_plan block use_sequence_parallelism = (tr, Ok tp_plan)
    ∧ Dict.wf tp_plan
    ∧ (∀ name style, (name, style) ∈ tp_plan →
         name ∈ (named_modules block).*1
         ∧ (style = ColwiseParallel None
            ∨ style = RowwiseParallel None
            ∨ (use_sequence_parallelism = true ∧ style = SequenceParallel))).
Proof.
  destruct (generate_ok colwise_patterns rowwise_patterns
              use_sequence_parallelism block) as [tr Htr].
  exists tr. eexists. split; [exact Htr|].
  set (ok := fun plan : Dict.t ParallelStyle =>
         Dict.wf plan
         ∧ ∀ name style, (name, style) ∈ plan →
             name ∈ (named_modules block).*1
             ∧ (style = ColwiseParallel None
                ∨ style = RowwiseParallel None
                ∨ (use_sequence_parallelism = true
                   ∧ style = SequenceParallel))).
  apply (foldl_invariant ok).
  - intros plan nm Hnm [Hwf Hin].
    assert (Hname : nm.1 ∈ (named_modules block).*1)
      by (by apply list_elem_of_fmap_2).
    unfold plan_step.
    destruct (use_sequence_parallelism && _) eqn:Hsp.
    + apply andb_true_iff in Hsp as [-> _]. split; [by apply wf_set|].
      intros name style [[= -> ->]|Hold]%elem_of_set; [|by apply Hin].
      split; [done|]. right. right. done.
    + destruct (isinstance nm.2 nn_Linear); [|done].
      rewrite !scan_any.
      destruct (Re.any_match rowwise_patterns nm.1),
               (Re.any_match colwise_patterns nm.1);
        (split; [by repeat apply wf_set|]);
        intros name style Hel;
        repeat (apply elem_of_set in Hel as [[= -> ->]|Hel]; [by auto|]);
        by apply Hin.
  - split; [apply NoDup_nil_2|]. by intros name style ?%elem_of_nil.
Qed.

(** X11. The names the shipped patterns accept: the column-wise patterns
    match exactly seven names, the row-wise patterns exactly two, and no
    name is matched by both lists, so for these patterns the order of the
    two scans cannot change a plan. *)
Theorem shipped_pattern_names (name : string) :
  (Re.any_match colwise_patterns name = true
   ↔ name ∈ ["attn.in_proj.qkv_fused"; "attn.in_proj.query";
             "attn.in_proj.key"; "attn.in_proj.value";
             "ff_sub_layer.wg1_fused"; "ff_sub_layer.w1"; "ff_sub_layer.wg"])
  ∧ (Re.any_match rowwise_patterns name = true
     ↔ name ∈ ["attn.dense"; "ff_sub_layer.w2"])
  ∧ (∀ before,
       scan rowwise_patterns name (RowwiseParallel None)
         (scan colwise_patterns name (ColwiseParallel None) before)
       = if Re.any_match rowwise_patterns name
         then Dict.set name (RowwiseParallel None) before
         else if Re.any_match colwise_patterns name
              then Dict.set name (ColwiseParallel None) before
              else before).
Proof.
  split_and!; [apply colwise_names | apply rowwise_names |].
  intros before. rewrite !scan_any.
  destruct (Re.any_match rowwise_patterns name) eqn:Hr;
    destruct (Re.any_match colwise_patterns name) eqn:Hc; try done.
  exfalso. by apply (shipped_patterns_disjoint name).
Qed.

(** ** Head counts under tensor parallelism *)

Lemma adjust_heads_ok (self : TensorParallel.t) (block attn : Module)
    (nheads kvheads : Z) :
  Dict.get "attn" (modules block) = Some attn →
  Dict.get "nheads" (attrs attn) = Some nheads →
  Dict.get "kvheads" (attrs attn) = Some kvheads →
  mesh_size (TensorParallel.device_mesh self) ≠ 0 →
  TensorParallel.adjust_heads self block
  = Ok (TensorParallel.with_module block "attn"
          (TensorParallel.setattr_int
             (TensorParallel.setattr_int attn "nheads"
                (nheads / mesh_size (TensorParallel.device_mesh self)))
             "kvheads"
             (kvheads / mesh_size (TensorParallel.device_mesh self)))).
Proof.
  intros Hattn Hn Hkv Hsize.
  unfold TensorParallel.adjust_heads, TensorParallel.getattr_module,
    TensorParallel.getattr_int.
  rewrite Hattn. cbn [rbind]. rewrite Hn. cbn [rbind].
  rewrite floordiv_ok by done. cbn [rbind].
  unfold TensorParallel.setattr_int at 1. cbn [attrs].
  rewrite get_set_ne by done. rewrite Hkv. cbn [rbind].
  by rewrite floordiv_ok.
Qed.

Lemma adjusted_heads (block attn : Module) (q kq : Z) :
  let attn' :=
    TensorParallel.setattr_int (TensorParallel.setattr_int attn "nheads" q)
      "kvheads" kq in
  Dict.get "attn" (modules (TensorParallel.with_module block "attn" attn'))
  = Some attn'
  ∧ Dict.get "nheads" (attrs attn') = Some q
  ∧ Dict.get "kvheads" (attrs attn') = Some kq.
Proof.
  cbn zeta. unfold TensorParallel.with_module, TensorParallel.setattr_int.
  cbn [modules attrs]. split_and!.
  - apply get_set_eq.
  - rewrite get_set_ne by done. apply get_set_eq.
  - apply get_set_eq.
Qed.

(** X12. On a mesh of s ≥ 1 ranks the head counts left on the block
    undercount: the new count times s is at most the old count and falls
    short of it by less than s, and it is exact precisely when s divides the
    old count. The same holds for the key/value head count. *)
Theorem local_heads_bounds (self : TensorParallel.t) (block attn : Module)
    (nheads kvheads : Z) :
  Dict.get "attn" (modules block) = Some attn →
  Dict.get "nheads" (attrs attn) = Some nheads →
  Dict.get "kvheads" (attrs attn) = Some kvheads →
  0 < mesh_size (TensorParallel.device_mesh self) →
  ∃ block' attn' q kq,
    TensorParallel.adjust_heads self block = Ok block'
    ∧ TensorParallel.getattr_module block' "attn" = Ok attn'
    ∧ TensorParallel.getattr_int attn' "nheads" = Ok q
    ∧ TensorParallel.getattr_int attn' "kvheads" = Ok kq
    ∧ (let s := mesh_size (TensorParallel.device_mesh self) in
       q * s ≤ nheads < q * s + s
       ∧ (q * s = nheads ↔ nheads mod s = 0)
       ∧ kq * s ≤ kvheads < kq * s + s
       ∧ (kq * s = kvheads ↔ kvheads mod s = 0)).
Proof.
  intros Hattn Hn Hkv Hs.
  set (s := mesh_size (TensorParallel.device_mesh self)) in *.
  destruct (adjusted_heads block attn (nheads / s) (kvheads / s))
    as (Ha & Hq & Hkq).
  eexists _, _, (nheads / s), (kvheads / s). split_and!.
  - apply (adjust_heads_ok self block attn nheads kvheads); try done.
    fold s. lia.
  - unfold TensorParallel.getattr_module. fold s. by rewrite Ha.
  - unfold TensorParallel.getattr_int. by rewrite Hq.
  - unfold TensorParallel.getattr_int. by rewrite Hkq.
  - cbn zeta.
    pose proof (Z.div_mod nheads s ltac:(lia)).
    pose proof (Z.mod_pos_bound nheads s Hs).
    pose proof (Z.div_mod kvheads s ltac:(lia)).
    pose proof (Z.mod_pos_bound kvheads s Hs).
    lia.
Qed.

Lemma local_heads_bounds_witness :
  ∃ block' attn' q kq,
    TensorParallel.adjust_heads Sample.tp Sample.block = Ok block'
    ∧ TensorParallel.getattr_module block' "attn" = Ok attn'
    ∧ TensorParallel.getattr_int attn' "nheads" = Ok q
    ∧ TensorParallel.getattr_int attn' "kvheads" = Ok kq
    ∧ (q * 3 ≤ 32 < q * 3 + 3
       ∧ (q * 3 = 32 ↔ 32 mod 3 = 0)
       ∧ kq * 3 ≤ 8 < kq * 3 + 3
       ∧ (kq * 3 = 8 ↔ 8 mod 3 = 0)).
Proof.
  exact (local_heads_bounds Sample.tp Sample.block Sample.attn 32 8
           eq_refl eq_refl eq_refl ltac:(vm_compute; reflexivity)).
Defined.

(** X13. The adjustment of the head counts is not idempotent: applied to a
    block it has already been applied to, it divides again, and the counts
    become the original ones divided by the square of the mesh size. *)
Theorem heads_divided_again (self : TensorParallel.t) (block attn : Module)
    (nheads kvheads : Z) :
  Dict.get "attn" (modules block) = Some attn →
  Dict.get "nheads" (attrs attn) = Some nheads →
  Dict.get "kvheads" (attrs attn) = Some kvheads →
  0 < mesh_size (TensorParallel.device_mesh self) →
  ∃ once twice attn'',
    TensorParallel.adjust_heads self block = Ok once
    ∧ TensorParallel.adjust_heads self once = Ok twice
    ∧ TensorParallel.getattr_module twice "attn" = Ok attn''
    ∧ (let s := mesh_size (TensorParallel.device_mesh self) in
       TensorParallel.getattr_int attn'' "nheads" = Ok (nheads / (s * s))
       ∧ TensorParallel.getattr_int attn'' "kvheads"
         = Ok (kvheads / (s * s))).
Proof.
  intros Hattn Hn Hkv Hs.
  set (s := mesh_size (TensorParallel.device_mesh self)) in *.
  destruct (adjusted_heads block attn (nheads / s) (kvheads / s))
    as (Ha & Hq & Hkq).
  pose proof (adjust_heads_ok self block attn nheads kvheads Hattn Hn Hkv
                ltac:(fold s; lia)) as H1. fold s in H1.
  pose proof (adjust_heads_ok self _ _ _ _ Ha Hq Hkq ltac:(fold s; lia))
    as H2. fold s in H2.
  destruct (adjusted_heads
              (TensorParallel.with_module block "attn"
                 (TensorParallel.setattr_int
                    (TensorParallel.setattr_int attn "nheads" (nheads / s))
                    "kvheads" (kvheads / s)))
              (TensorParallel.setattr_int
                 (TensorParallel.setattr_int attn "nheads" (nheads / s))
                 "kvheads" (kvheads / s))
              (nheads / s / s) (kvheads / s / s)) as (Ha' & Hq' & Hkq').
  eexists _, _, _. split_and!; [exact H1 | exact H2 | |].
  - unfold TensorParallel.getattr_module. by rewrite Ha'.
  - cbn zeta. unfold TensorParallel.getattr_int. rewrite Hq', Hkq'.
    by rewrite !Z.div_div by lia.
Qed.

Lemma heads_divided_again_witness :
  ∃ once twice attn'',
    TensorParallel.adjust_heads Sample.tp Sample.block = Ok once
    ∧ TensorParallel.adjust_heads Sample.tp once = Ok twice
    ∧ TensorParallel.getattr_module twice "attn" = Ok attn''
    ∧ (TensorParallel.getattr_int attn'' "nheads" = Ok 3
       ∧ TensorParallel.getattr_int attn'' "kvheads" = Ok 0).
Proof.
  exact (heads_divided_again Sample.tp Sample.block Sample.attn 32 8
           eq_refl eq_refl eq_refl ltac:(vm_compute; reflexivity)).
Defined.

(** ** What placement by the tensor-parallel strategy does and does not do *)

Lemma prints_only_ret {A} (a : A) : prints_only (ret a).
Proof. constructor. Qed.

Lemma prints_only_print line : prints_only (print line).
Proof. repeat constructor. by eexists. Qed.

Lemma prints_only_bind {A B} (m : M A) (k : A → M B) :
  prints_only m → (∀ a, prints_only (k a)) → prints_only (bind m k).
Proof.
  unfold prints_only. destruct m as [tr [a|e]]; cbn [bind fst]; [|done].
  intros Hm Hk. specialize (Hk a). destruct (k a) as [tr' r]. cbn [fst] in *.
  by apply Forall_app.
Qed.

Lemma prints_only_forM {A S} (xs : list A) (body : A → S → M S) :
  (∀ x s, prints_only (body x s)) → ∀ s, prints_only (forM xs body s).
Proof.
  intros Hbody. induction xs as [|x xs IH]; intros s; cbn [forM].
  - apply prints_only_ret.
  - apply prints_only_bind; [apply Hbody | apply IH].
Qed.

Lemma prints_only_generate colwise rowwise block usp :
  prints_only (generate_layer_plan_with colwise rowwise block usp).
Proof.
  unfold generate_layer_plan_with.
  apply prints_only_bind; [|intros plan; apply prints_only_bind;
                            [apply prints_only_print|intros; apply prints_only_ret]].
  apply prints_only_forM. intros [name module] plan. unfold classify.
  repeat (apply prints_only_bind; [apply prints_only_print | intros _]).
  apply prints_only_bind.
  - unfold print_children. destruct (children module).
    + apply prints_only_print.
    + apply prints_only_bind; [apply prints_only_print | intros _].
      apply prints_only_bind; [|intros _; apply prints_only_print].
      apply prints_only_forM. intros; apply prints_only_print.
  - intros _. destruct (usp && _); [apply prints_only_ret|].
    destruct (isinstance module nn_Linear); [apply prints_only_ret|].
    apply prints_only_bind; [apply prints_only_print|].
    intros; apply prints_only_ret.
Qed.

(** X14. A block without a sub-module named attn cannot be placed under the
    tags llama and granite: the classifier runs and prints, then the read of
    the attention fails with an attribute error. The trace is the
    classifier's and holds printed lines only, so the mesh-parallelization
    primitive is never called. *)
Theorem block_without_attention (T : Torch) (P : Process)
    (self : TensorParallel.t) (block : Module) (layer : Z) (model : string) :
  model = "llama" ∨ model = "granite" →
  Dict.get "attn" (modules block) = None →
  ∃ tr,
    TensorParallel._distribute_layer T P self block layer (Some model)
    = (tr, Raise (AttributeError "attn"))
    ∧ tr = (generate_layer_plan block
              (TensorParallel.use_sequence_parallelism self)).1
    ∧ Forall (fun e => ∃ line, e = Print line) tr.
Proof.
  intros Hmodel Hattn.
  destruct (generate_ok colwise_patterns rowwise_patterns
              (TensorParallel.use_sequence_parallelism self) block)
    as [tr Htr].
  pose proof (prints_only_generate colwise_patterns rowwise_patterns block
                (TensorParallel.use_sequence_parallelism self)) as Hpr.
  unfold prints_only in Hpr. fold (generate_layer_plan block
    (TensorParallel.use_sequence_parallelism self)) in Htr, Hpr.
  exists tr. rewrite Htr in *. cbn [fst] in *. split_and!; [|done|done].
  unfold TensorParallel._distribute_layer.
  assert (TensorParallel.falsy (Some model) = false) as ->
    by (by destruct Hmodel as [-> | ->]).
  assert (TensorParallel.is_tag (Some model) "llama"
          || TensorParallel.is_tag (Some model) "granite" = true) as ->
    by (by destruct Hmodel as [-> | ->]).
  rewrite Htr. unfold TensorParallel.adjust_heads,
    TensorParallel.getattr_module. rewrite Hattn. cbn.
  by rewrite app_nil_r.
Qed.

Lemma block_without_attention_witness :
  ∃ tr,
    TensorParallel._distribute_layer Sample.torch Sample.process Sample.tp
      Sample.ff_sub_layer 0 (Some "granite")
    = (tr, Raise (AttributeError "attn"))
    ∧ tr = (generate_layer_plan Sample.ff_sub_layer false).1
    ∧ Forall (fun e => ∃ line, e = Print line) tr.
Proof.
  apply (block_without_attention Sample.torch Sample.process Sample.tp
           Sample.ff_sub_layer 0 "granite"); [by right | reflexivity].
Defined.

(** X15. Module placement looks at [final_layers] only under the tag llama:
    for every other model value, given or not, the outcome is the same for
    final and for non-final modules. *)
Theorem final_layers_only_for_llama (T : Torch) (self : TensorParallel.t)
    (module : Module) (model : option string) :
  model ≠ Some "llama" →
  TensorParallel._distribute_module T self module true model
  = TensorParallel._distribute_module T self module false model.
Proof.
  intros Hne. unfold TensorParallel._distribute_module.
  destruct (TensorParallel.falsy model); [done|].
  unfold TensorParallel.is_tag at 1 3.
  by rewrite !bool_decide_eq_false_2 by done.
Qed.

Lemma final_layers_only_for_llama_witness :
  TensorParallel._distribute_module Sample.torch Sample.tp Sample.block true
    (Some "granite")
  = TensorParallel._distribute_module Sample.torch Sample.tp Sample.block
      false (Some "granite").
Proof.
  apply (final_layers_only_for_llama Sample.torch Sample.tp Sample.block
           (Some "granite")). discriminate.
Defined.

Example granite_plan_has_both :
  TensorParallel._distribute_module Sample.torch Sample.tp Sample.block false
    (Some "granite")
  = ([Called (call_parallelize_module Sample.block (mkMesh "cpu" [3])
                [("head", ColwiseParallel (Some Replicate));
                 ("base_model.embedding",
                  RowwiseParallel (Some Replicate))])],
     Ok (Some Sample.block)).
Proof. reflexivity. Qed.

Lemma init_mesh_size_witness :
  mesh_size
    (TensorParallel.device_mesh
       (TensorParallel.mk true WORLD true (mkMesh "cpu" [4])))
  = world_size Sample.ready.
Proof.
  apply (init_mesh_size Sample.torch Sample.ready None true
           [ Called dist_is_initialized;
             Called dist_GroupMember_WORLD;
             Called (os_getenv "USE_SEQUENCE_PARALLELISM");
             Print "Using TP strategy with sequence parallelism";
             Called cuda_is_available;
             Called dist_get_world_size;
             Called (call_init_device_mesh "cpu" [4]) ]).
  - intros device_type shape tr' mesh [= _ <-]. reflexivity.
  - reflexivity.
Defined.

(** ** The sequence-parallelism switch *)

Ltac by_all_characters c :=
  destruct c as [[] [] [] [] [] [] [] []]; vm_compute;
  (split; [intros H; first [discriminate H | auto]
          | intros [H|H]; first [discriminate H | reflexivity]]).

Lemma lower_ascii_t c :
  lower_ascii c = "t"%char ↔ c = "t"%char ∨ c = "T"%char.
Proof. by_all_characters c. Qed.

Lemma lower_ascii_r c :
  lower_ascii c = "r"%char ↔ c = "r"%char ∨ c = "R"%char.
Proof. by_all_characters c. Qed.

Lemma lower_ascii_u c :
  lower_ascii c = "u"%char ↔ c = "u"%char ∨ c = "U"%char.
Proof. by_all_characters c. Qed.

Lemma lower_ascii_e c :
  lower_ascii c = "e"%char ↔ c = "e"%char ∨ c = "E"%char.
Proof. by_all_characters c. Qed.

Lemma lower_true v :
  lower v = "true"
  ↔ ∃ a b c d,
      v = String a (String b (String c (String d "")))
      ∧ (a = "t" ∨ a = "T")%char ∧ (b = "r" ∨ b = "R")%char
      ∧ (c = "u" ∨ c = "U")%char ∧ (d = "e" ∨ d = "E")%char.
Proof.
  split.
  - destruct v as [|a [|b [|c [|d [|x v]]]]]; cbn [lower]; try discriminate.
    intros [= Ha%lower_ascii_t Hb%lower_ascii_r Hc%lower_ascii_u
              Hd%lower_ascii_e].
    by exists a, b, c, d.
  - intros (a & b & c & d & -> & Ha%lower_ascii_t & Hb%lower_ascii_r
            & Hc%lower_ascii_u & Hd%lower_ascii_e).
    cbn [lower]. by rewrite Ha, Hb, Hc, Hd.
Qed.

(** X16. A constructed tensor-parallel strategy has sequence parallelism on
    exactly when the variable USE_SEQUENCE_PARALLELISM is set to the four
    letters of true, each in either case; unset, or set to anything else,
    it is off. *)
Theorem sequence_parallel_switch (T : Torch) (P : Process)
    (group : option Group) (from_meta : bool) (tr : list event)
    (self : TensorParallel.t) :
  TensorParallel.__init__ T P group from_meta = (tr, Ok self) →
  TensorParallel.use_sequence_parallelism self = true
  ↔ ∃ a b c d,
      Dict.get "USE_SEQUENCE_PARALLELISM" (environ P)
      = Some (String a (String b (String c (String d ""))))
      ∧ (a = "t" ∨ a = "T")%char ∧ (b = "r" ∨ b = "R")%char
      ∧ (c = "u" ∨ c = "U")%char ∧ (d = "e" ∨ d = "E")%char.
Proof.
  unfold TensorParallel.__init__, getenv.
  set (flag := match Dict.get "USE_SEQUENCE_PARALLELISM" (environ P) with
               | Some v => v
               | None => "False"
               end).
  assert (Hflag : lower flag = "true"
            ↔ ∃ a b c d,
                Dict.get "USE_SEQUENCE_PARALLELISM" (environ P)
                = Some (String a (String b (String c (String d ""))))
                ∧ (a = "t" ∨ a = "T")%char ∧ (b = "r" ∨ b = "R")%char
                ∧ (c = "u" ∨ c = "U")%char ∧ (d = "e" ∨ d = "E")%char).
  { rewrite lower_true. unfold flag.
    destruct (Dict.get "USE_SEQUENCE_PARALLELISM" (environ P)) as [v|].
    - split.
      + intros (a & b & c & d & -> & H). by exists a, b, c, d.
      + intros (a & b & c & d & [= ->] & H). by exists a, b, c, d.
    - split.
      + intros (a & b & c & d & Hv & _). discriminate Hv.
      + intros (a & b & c & d & Hv & _). discriminate Hv. }
  clearbody flag. intros Hinit. rewrite <- Hflag.
  destruct (initialized P); [|discriminate].
  destruct (init_device_mesh T (if cuda P then "cuda" else "cpu")
              [world_size P]) as [tr' [mesh|e]].
  - destruct group; cbn in Hinit;
      destruct (bool_decide (lower flag = "true")) eqn:Hb; cbn in Hinit;
      injection Hinit as _ <-; cbn;
      first [ apply bool_decide_eq_true in Hb
            | apply bool_decide_eq_false in Hb ];
      split; intros; first [done | congruence].
  - destruct group; cbn in Hinit;
      destruct (bool_decide (lower flag = "true")); discriminate.
Qed.

Lemma sequence_parallel_switch_witness :
  TensorParallel.use_sequence_parallelism
    (TensorParallel.mk true WORLD true (mkMesh "cpu" [4])) = true
  ↔ ∃ a b c d,
      Dict.get "USE_SEQUENCE_PARALLELISM" (environ Sample.ready)
      = Some (String a (String b (String c (String d ""))))
      ∧ (a = "t" ∨ a = "T")%char ∧ (b = "r" ∨ b = "R")%char
      ∧ (c = "u" ∨ c = "U")%char ∧ (d = "e" ∨ d = "E")%char.
Proof.
  apply (sequence_parallel_switch Sample.torch Sample.ready None true
           [ Called dist_is_initialized;
             Called dist_GroupMember_WORLD;
             Called (os_getenv "USE_SEQUENCE_PARALLELISM");
             Print "Using TP strategy with sequence parallelism";
             Called cuda_is_available;
             Called dist_get_world_size;
             Called (call_init_device_mesh "cpu" [4]) ]).
  reflexivity.
Defined.

(** ** Arguments that need no move *)

Lemma forward_eq {R : Type} (self : DeviceMover.t R)
    (args : list DeviceMover.value) (kwargs : Dict.t DeviceMover.value) :
  Dict.wf kwargs →
  DeviceMover.forward self args kwargs
  = DeviceMover.module self
      (relocate (DeviceMover.device self) <$> args)
      ((fun kv => (kv.1, relocate (DeviceMover.device self) kv.2))
       <$> kwargs).
Proof.
  intros Hwf.
  pose proof (kwargs_loop (DeviceMover.device self) kwargs Hwf kwargs []
                eq_refl) as Hloop.
  cbn [fmap list_fmap] in Hloop.
  unfold DeviceMover.forward, Dict.empty. rewrite Hloop.
  unfold lift. apply bind_ret_l.
Qed.

Lemma relocate_settled d v : settled d v → relocate d v = v.
Proof. destruct v; cbn; [by intros -> | done | done]. Qed.

(** X17. When no argument is a tensor on another device, the invocation
    hands the arguments to the wrapped module exactly as they came. *)
Theorem forward_of_settled_arguments {R : Type} (self : DeviceMover.t R)
    (args : list DeviceMover.value) (kwargs : Dict.t DeviceMover.value) :
  Dict.wf kwargs →
  Forall (settled (DeviceMover.device self)) args →
  Forall (fun kv => settled (DeviceMover.device self) kv.2) kwargs →
  DeviceMover.forward self args kwargs = DeviceMover.module self args kwargs.
Proof.
  intros Hwf Hargs Hkw. rewrite forward_eq by done. f_equal.
  - rewrite <- (list_fmap_id args) at 2. apply Forall_fmap_ext_1.
    eapply Forall_impl; [exact Hargs|]. intros v. apply relocate_settled.
  - rewrite <- (list_fmap_id kwargs) at 2. apply Forall_fmap_ext_1.
    eapply Forall_impl; [exact Hkw|]. intros [k v] Hv. cbn in *.
    by rewrite relocate_settled.
Qed.

Lemma forward_of_settled_arguments_witness :
  DeviceMover.forward Sample.mover
    [DeviceMover.Tensor 1 [7]; DeviceMover.Other "x"]
    [("mask", DeviceMover.Tensor 1 [1])]
  = DeviceMover.module Sample.mover
      [DeviceMover.Tensor 1 [7]; DeviceMover.Other "x"]
      [("mask", DeviceMover.Tensor 1 [1])].
Proof.
  apply (forward_of_settled_arguments Sample.mover).
  - vm_compute. repeat constructor; rewrite ?elem_of_nil; intuition.
  - by repeat constructor.
  - by repeat constructor.
Defined.

(** ** Construction of a device mover *)

Section ObjectFacts.
Import Objects.

Lemma init_dict_of fresh h self module device o :
  dict_of (__init__ fresh h self module device) o
  = if decide (o = self) then dict_of h module else dict_of h o.
Proof. reflexivity. Qed.

Lemma init_moves fresh h self module device :
  moves (__init__ fresh h self module device) = moves h ++ [(module, device)].
Proof. reflexivity. Qed.

Lemma init_shared_dict fresh h self module device :
  dict_of h self ≠ dict_of h module →
  dicts (__init__ fresh h self module device) (dict_of h module)
  = Dict.set "device" (VInt device)
      (Dict.set "module" (VRef module) (dicts h (dict_of h module))).
Proof.
  intros Hne.
  cbv [__init__ to set_dict dict_set setattr module_init dicts dict_of moves].
  rewrite !decide_True by done.
  by rewrite !decide_False by done.
Qed.

End ObjectFacts.

(** X18. After construction the mover has no dictionary of its own: its
    [__dict__] is the dictionary of the module it wraps, so an entry written
    into the one is written into the other. The dictionary the mover was
    created with, which [super().__init__()] filled and [self.device = device]
    wrote to, holds just that and belongs to no object any more. The mover
    is a new object: before construction no other object has its
    dictionary. *)
Theorem mover_shares_dictionary (fresh : Dict.t Objects.pyval)
    (h : Objects.store) (self module : nat) (device : Z) :
  self ≠ module →
  (∀ o, o ≠ self → Objects.dict_of h o ≠ Objects.dict_of h self) →
  let h' := Objects.__init__ fresh h self module device in
  Objects.dict_of h' self = Objects.dict_of h' module
  ∧ Objects.dict_of h' self = Objects.dict_of h module
  ∧ (∀ o, Objects.dict_of h' o ≠ Objects.dict_of h self)
  ∧ Objects.dicts h' (Objects.dict_of h self)
    = Dict.set "device" (Objects.VInt device) fresh
  ∧ (∀ name v,
       Objects.dicts
         (Objects.dict_set h' (Objects.dict_of h' self) name v)
         (Objects.dict_of h' module)
       = Dict.set name v (Objects.dicts h' (Objects.dict_of h' module))).
Proof.
  intros Hne Hown h'.
  assert (Hself : Objects.dict_of h' self = Objects.dict_of h module).
  { unfold h'. rewrite init_dict_of. by rewrite decide_True. }
  assert (Hmod : Objects.dict_of h' module = Objects.dict_of h module).
  { unfold h'. rewrite init_dict_of. by rewrite decide_False. }
  assert (Hdiff : Objects.dict_of h module ≠ Objects.dict_of h self).
  { apply Hown. congruence. }
  split_and!.
  - congruence.
  - done.
  - intros o. unfold h'. rewrite init_dict_of.
    destruct (decide (o = self)) as [->|Ho]; [done | by apply Hown].
  - clear Hself Hmod. subst h'. destruct h as [dof ds mv].
    cbv [Objects.__init__ Objects.to Objects.set_dict Objects.dict_set
         Objects.setattr Objects.module_init Objects.dicts Objects.dict_of
         Objects.moves] in *.
    repeat case_decide; congruence.
  - intros name v. rewrite Hself, Hmod.
    unfold Objects.dict_set. cbn [Objects.dicts Objects.dict_of].
    by rewrite decide_True.
Qed.

Lemma mover_shares_dictionary_witness :
  let h' := Objects.__init__ Sample.fresh Sample.store 1 0 3 in
  Objects.dict_of h' 1%nat = Objects.dict_of h' 0%nat
  ∧ Objects.dict_of h' 1%nat = Objects.dict_of Sample.store 0%nat
  ∧ (∀ o, Objects.dict_of h' o ≠ Objects.dict_of Sample.store 1%nat)
  ∧ Objects.dicts h' (Objects.dict_of Sample.store 1%nat)
    = Dict.set "device" (Objects.VInt 3) Sample.fresh
  ∧ (∀ name v,
       Objects.dicts
         (Objects.dict_set h' (Objects.dict_of h' 1%nat) name v)
         (Objects.dict_of h' 0%nat)
       = Dict.set name v (Objects.dicts h' (Objects.dict_of h' 0%nat))).
Proof.
  exact (mover_shares_dictionary Sample.fresh Sample.store 1 0 3
           ltac:(discriminate) ltac:(intros o Ho; exact Ho)).
Defined.

(** X19. Construction writes into the wrapped module itself: afterwards the
    module has an attribute [device] holding the target device and an
    attribute [module] referring to the module itself, whatever it had
    under these names before; its other attributes are as before; one move
    to the device is logged; and every object but the mover keeps its
    dictionary. The mover is a new object with a dictionary of its own. *)
Theorem mover_writes_into_module (fresh : Dict.t Objects.pyval)
    (h : Objects.store) (self module : nat) (device : Z) :
  Objects.dict_of h self ≠ Objects.dict_of h module →
  let h' := Objects.__init__ fresh h self module device in
  Objects.getattr h' module "device" = Ok (Objects.VInt device)
  ∧ Objects.getattr h' module "module" = Ok (Objects.VRef module)
  ∧ (∀ name, name ≠ "device" → name ≠ "module" →
       Objects.getattr h' module name = Objects.getattr h module name)
  ∧ Objects.moves h' = Objects.moves h ++ [(module, device)]
  ∧ (∀ o, o ≠ self → Objects.dict_of h' o = Objects.dict_of h o).
Proof.
  intros Hfresh h'.
  assert (Hne : self ≠ module) by (intros ->; by apply Hfresh).
  assert (Hd : Objects.dict_of h' module = Objects.dict_of h module).
  { unfold h'. rewrite init_dict_of. by rewrite decide_False by done. }
  pose proof (init_shared_dict fresh h self module device Hfresh) as Hs.
  fold h' in Hs.
  split_and!.
  - unfold Objects.getattr. rewrite Hd, Hs. by rewrite get_set_eq.
  - unfold Objects.getattr. rewrite Hd, Hs.
    rewrite get_set_ne by done. by rewrite get_set_eq.
  - intros name H1 H2. unfold Objects.getattr. rewrite Hd, Hs.
    by rewrite !get_set_ne by done.
  - apply init_moves.
  - intros o Ho. unfold h'. rewrite init_dict_of.
    by rewrite decide_False by done.
Qed.

Lemma mover_writes_into_module_witness :
  let h' := Objects.__init__ Sample.fresh Sample.store 1 0 3 in
  Objects.getattr h' 0%nat "device" = Ok (Objects.VInt 3)
  ∧ Objects.getattr h' 0%nat "module" = Ok (Objects.VRef 0)
  ∧ (∀ name, name ≠ "device" → name ≠ "module" →
       Objects.getattr h' 0%nat name
       = Objects.getattr Sample.store 0%nat name)
  ∧ Objects.moves h' = Objects.moves Sample.store ++ [(0%nat, 3)]
  ∧ (∀ o, o ≠ 1%nat →
       Objects.dict_of h' o = Objects.dict_of Sample.store o).
Proof.
  exact (mover_writes_into_module Sample.fresh Sample.store 1 0 3
           ltac:(discriminate)).
Defined.

(** X20. A mover around a mover: the second construction writes into the
    dictionary that the first mover shares with its module, so afterwards
    the module, the inner mover and the outer mover all have the inner mover
    as their [module] and the outer device as their [device]. The module
    wrapped first is no longer the [module] of any of them. *)
Theorem mover_around_mover (fresh : Dict.t Objects.pyval) (h : Objects.store)
    (module inner outer : nat) (d1 d2 : Z) :
  inner ≠ module → outer ≠ module → outer ≠ inner →
  Objects.dict_of h outer ≠ Objects.dict_of h module →
  let h1 := Objects.__init__ fresh h inner module d1 in
  let h2 := Objects.__init__ fresh h1 outer inner d2 in
  ∀ o, o = module ∨ o = inner ∨ o = outer →
    Objects.getattr h2 o "module" = Ok (Objects.VRef inner)
    ∧ Objects.getattr h2 o "device" = Ok (Objects.VInt d2).
Proof.
  intros Him Hom Hoi Hfresh h1 h2 o Ho.
  assert (Hinner : Objects.dict_of h1 inner = Objects.dict_of h module).
  { unfold h1. rewrite init_dict_of. by rewrite decide_True. }
  assert (Houter : Objects.dict_of h1 outer = Objects.dict_of h outer).
  { unfold h1. rewrite init_dict_of. by rewrite decide_False. }
  assert (Hmod : Objects.dict_of h1 module = Objects.dict_of h module).
  { unfold h1. rewrite init_dict_of. by rewrite decide_False. }
  assert (Hd : Objects.dict_of h2 o = Objects.dict_of h1 inner).
  { unfold h2. rewrite init_dict_of.
    destruct Ho as [->|[->| ->]].
    - rewrite decide_False by done. by rewrite Hmod, Hinner.
    - by rewrite decide_False by done.
    - by rewrite decide_True. }
  pose proof (init_shared_dict fresh h1 outer inner d2) as Hs.
  fold h2 in Hs. rewrite Houter, Hinner in Hs. specialize (Hs Hfresh).
  unfold Objects.getattr. rewrite Hd, Hinner, Hs. split.
  - rewrite get_set_ne by done. by rewrite get_set_eq.
  - by rewrite get_set_eq.
Qed.

Lemma mover_around_mover_witness :
  let h1 := Objects.__init__ Sample.fresh Sample.store 1 0 3 in
  let h2 := Objects.__init__ Sample.fresh h1 2 1 5 in
  (Objects.getattr h2 0%nat "module" = Ok (Objects.VRef 1)
   ∧ Objects.getattr h2 0%nat "device" = Ok (Objects.VInt 5))
  ∧ (Objects.getattr h2 1%nat "module" = Ok (Objects.VRef 1)
     ∧ Objects.getattr h2 1%nat "device" = Ok (Objects.VInt 5))
  ∧ (Objects.getattr h2 2%nat "module" = Ok (Objects.VRef 1)
     ∧ Objects.getattr h2 2%nat "device" = Ok (Objects.VInt 5)).
Proof.
  split_and!;
    apply (mover_around_mover Sample.fresh Sample.store 0 1 2 3 5
             ltac:(discriminate) ltac:(discriminate) ltac:(discriminate)
             ltac:(discriminate));
    auto.
Defined.

(** A module that already has an attribute [device] loses its value. *)
Example device_attribute_overwritten :
  Objects.getattr Sample.store 0%nat "device" = Ok (Objects.VStr "meta")
  ∧ Objects.getattr (Objects.__init__ Sample.fresh Sample.store 1 0 3)
      0%nat "device"
    = Ok (Objects.VInt 3).
Proof. by vm_compute. Qed.

(** ** The report after a layer is placed *)

Lemma get_of_pairs {V} (k : string) (l : list (string * V)) : ∀ d : Dict.t V,
  is_Some (Dict.get k (foldl (fun d kv => Dict.set kv.1 kv.2 d) d l))
  ↔ is_Some (Dict.get k d) ∨ k ∈ l.*1.
Proof.
  induction l as [|[k' v'] l IH]; intros d; cbn [foldl fmap list_fmap fst snd].
  - rewrite elem_of_nil. tauto.
  - rewrite IH, get_set, elem_of_cons. destruct (decide (k' = k)) as [->|Hne].
    + split; [by auto | intros _; left; by eexists].
    + split; [tauto|]. intros [?|[?|?]]; [by left | congruence | by right].
Qed.

Lemma mem_of_pairs {V} (k : string) (l : list (string * V)) :
  Dict.mem k (Dict.of_pairs l) = bool_decide (k ∈ l.*1).
Proof.
  unfold Dict.mem, Dict.of_pairs. apply bool_decide_ext.
  rewrite get_of_pairs. cbn. split; [intros [[? ?]|?]; done | by right].
Qed.

Lemma forM_unit {A} (xs : list A) (body : A → unit → M unit)
    (lines : A → list event) :
  (∀ x, body x tt = (lines x, Ok tt)) →
  forM xs body tt = (flat_map lines xs, Ok tt).
Proof.
  intros Hbody. induction xs as [|x xs IH]; cbn [forM flat_map]; [done|].
  by apply (bind_ok _ _ (lines x) tt (flat_map lines xs)).
Qed.

(** X21. The report after placement asks for the rank and prints a header,
    then, for every entry of the plan in order, asks for the rank again and
    prints one line with the name and the kind; the line ends in
    (NOT FOUND) exactly when the traversal of the placed block yields no
    sub-module under that name, as for the second name of a shared
    instance. It never fails. *)
Theorem report_lines (P : Process) (block : Module)
    (layer_tp_plan : Dict.t ParallelStyle) :
  TensorParallel.report P block layer_tp_plan
  = (Called dist_get_rank
     :: Print (nl +:+ ("[Rank " +:+ pretty (rank P) +:+ "] ")
               +:+ "Test Plan:")
     :: flat_map
          (fun entry : string * ParallelStyle =>
             [ Called dist_get_rank;
               Print (("[Rank " +:+ pretty (rank P) +:+ "] ")
                      +:+ entry.1 +:+ ": " +:+ style_name entry.2
                      +:+ (if bool_decide
                                (entry.1 ∈ (named_modules block).*1)
                           then "" else " (NOT FOUND)")) ])
          layer_tp_plan,
     Ok tt).
Proof.
  unfold TensorParallel.report, TensorParallel.rank_tag.
  set (tag := "[Rank " +:+ pretty (rank P) +:+ "] ").
  rewrite (forM_unit layer_tp_plan _
             (fun entry : string * ParallelStyle =>
                [ Called dist_get_rank;
                  Print (tag +:+ entry.1 +:+ ": " +:+ style_name entry.2
                         +:+ (if bool_decide
                                   (entry.1 ∈ (named_modules block).*1)
                              then "" else " (NOT FOUND)")) ])).
  - reflexivity.
  - intros [name style]. cbn [fst snd]. rewrite mem_of_pairs.
    destruct (bool_decide (name ∈ (named_modules block).*1)).
    + by rewrite !app_empty_r.
    + reflexivity.
Qed.

Example report_of_sample :
  TensorParallel.report Sample.ready Sample.block
    [("attn.dense", RowwiseParallel None); ("attn.out", ColwiseParallel None)]
  = ([ Called dist_get_rank;
       Print (nl +:+ "[Rank 2] Test Plan:");
       Called dist_get_rank;
       Print "[Rank 2] attn.dense: RowwiseParallel";
       Called dist_get_rank;
       Print "[Rank 2] attn.out: ColwiseParallel (NOT FOUND)" ],
     Ok tt).
Proof. by vm_compute. Qed.

(** ** Sub-modules registered under several names *)

(** The traversal yields a shared instance under its first name only. *)
Example tied_block_names :
  (named_modules Sample.tied_block).*1
  = [""; "ff_sub_layer"; "ff_sub_layer.w1"; "dropout"]
  ∧ (registered_from "" Sample.tied_block).*1
    = [""; "ff_sub_layer"; "ff_sub_layer.w1"; "ff_sub_layer.w2"; "dropout";
       "resid_dropout"].
Proof. by vm_compute. Qed.

(** So the plan has no entry under the later names of a shared instance. *)
Example tied_block_plans :
  (generate_layer_plan Sample.tied_block false).2
  = Ok [("ff_sub_layer.w1", ColwiseParallel None)]
  ∧ (generate_layer_plan Sample.tied_block true).2
    = Ok [("ff_sub_layer.w1", ColwiseParallel None);
          ("dropout", SequenceParallel)].
Proof. by vm_compute. Qed.

Example tied_block_children :
  oid <$> children Sample.tied_block = [31; 33]%nat.
Proof. reflexivity. Qed.

(** A plan that names the second registration is reported as not found. *)
Example tied_block_report :
  TensorParallel.report Sample.ready Sample.tied_block
    [("ff_sub_layer.w2", RowwiseParallel None)]
  = ([ Called dist_get_rank;
       Print (nl +:+ "[Rank 2] Test Plan:");
       Called dist_get_rank;
       Print "[Rank 2] ff_sub_layer.w2: RowwiseParallel (NOT FOUND)" ],
     Ok tt).
Proof. by vm_compute. Qed.
